(** * ots-tools: csv2wiki.py and sort-duplicates.py

    A shallow embedding of the two scripts of the repository and the
    properties their specification states about them.

    - [Py]        the fragment of Python both scripts rely on: exceptions,
                  [str.split], [int], binary64 floats, [round], [sorted];
    - [SortDup]   every function of sort-duplicates.py;
    - [Csv2Wiki]  csv2wiki.py from the reading of the CSV rows on;
    - [Spec]      the notions the specification speaks of;
    - [Further]   notions for the properties read off the code;
    - [PyFacts], [SortDupFacts], [Csv2WikiFacts]  what is proved of the
                  specification;
    - [PyMore], [SortDupMore], [Csv2WikiMore]  what is proved beyond it.

    Both scripts are Python 2 ([Element._children], the csv reader on a
    file opened in mode 'rb'); [int] and [round] follow that version. *)

From Stdlib Require Import ZArith Lia Ascii String Sorted.
From stdpp Require Import base option list strings gmap pretty.

Local Open Scope Z_scope.

(* ================================================================== *)
(** * The Python fragment *)
(* ================================================================== *)

Module Py.

(** The exception classes the two scripts can meet. *)
Inductive exn : Set :=
  | IndexError | KeyError | ValueError | TypeError
  | ZeroDivisionError | OverflowError | UnboundLocalError
  | IOError | XMLParseError | APIError | NameError.

Global Instance exn_eq_dec : EqDecision exn.
Proof. solve_decision. Defined.

(** A computation either returns or raises. *)
Inductive result (A : Type) : Type :=
  | Ok (a : A)
  | Raise (e : exn).
Global Arguments Ok {A} a.
Global Arguments Raise {A} e.

Definition bind {A B} (r : result A) (k : A -> result B) : result B :=
  match r with
  | Ok a => k a
  | Raise e => Raise e
  end.

Definition of_option {A} (e : exn) (o : option A) : result A :=
  match o with
  | Some a => Ok a
  | None => Raise e
  end.

Module Import Notations.
Notation "'let!' x ':=' r 'in' k" := (bind r (fun x => k))
  (at level 10, x pattern, r at level 100, k at level 200).
End Notations.

(** [l[i]] on a list, for a non-negative literal index. *)
Definition index {A} (l : list A) (i : nat) : result A :=
  of_option IndexError (l !! i).

(** [d[k]] on a dict with string keys. *)
Definition getitem {V} (d : gmap string V) (k : string) : result V :=
  of_option KeyError (d !! k).

(** ** [str.split(sep)] *)

(** [s.split(sep)] for a non-empty [sep]: the string is scanned from the
    left; wherever [sep] starts, the piece read so far is closed and the
    scan resumes behind that occurrence.  [skip] counts the characters of
    the occurrence still to step over, [cur] is the open piece. *)
Fixpoint split_go (sep : string) (skip : nat) (cur : string) (s : string)
  : list string :=
  match s with
  | EmptyString => [cur]
  | String c s' =>
      match skip with
      | S k => split_go sep k cur s'
      | O =>
          if String.prefix sep s
          then cur :: split_go sep (Nat.pred (String.length sep)) EmptyString s'
          else split_go sep O (cur +:+ String c EmptyString) s'
      end
  end.

(** The empty separator is refused, as by Python. *)
Definition split (s sep : string) : result (list string) :=
  match sep with
  | EmptyString => Raise ValueError
  | _ => Ok (split_go sep O EmptyString s)
  end.

(** [sep] occurs in [s]. *)
Definition occurs (sep s : string) : Prop :=
  exists pre post, s = pre +:+ sep +:+ post.

(** The same as a test: [sep in s]. *)
Fixpoint occursb (sep s : string) : bool :=
  (String.prefix sep s
   || match s with
      | EmptyString => false
      | String _ s' => occursb sep s'
      end)%bool.

(** ** Values of mixed type and [int] *)

(** A slot that holds a [str] at first and an [int] later on. *)
Inductive pyval : Set :=
  | PStr (s : string)
  | PInt (n : Z).

Definition is_space (c : ascii) : bool :=
  let n := nat_of_ascii c in
  (Nat.eqb n 32 || (Nat.leb 9 n && Nat.leb n 13))%bool.

Definition digit (c : ascii) : option Z :=
  let n := nat_of_ascii c in
  if (Nat.leb 48 n && Nat.leb n 57)%bool then Some (Z.of_nat (n - 48)) else None.

Fixpoint lstrip (s : string) : string :=
  match s with
  | EmptyString => EmptyString
  | String c s' => if is_space c then lstrip s' else s
  end.

Definition strip (s : string) : string :=
  String.rev (lstrip (String.rev (lstrip s))).

Fixpoint digits (acc : Z) (s : string) : option Z :=
  match s with
  | EmptyString => Some acc
  | String c s' =>
      match digit c with
      | Some d => digits (10 * acc + d) s'
      | None => None
      end
  end.

Definition unsigned (s : string) : option Z :=
  match s with
  | EmptyString => None
  | _ => digits 0 s
  end.

(** [int(s)] on a [str] (Python 2, base 10): blanks around the literal are
    dropped, one sign is allowed, blanks between the sign and the digits
    are dropped as well ([int('- 5')] is [-5] in Python 2), and at least
    one decimal digit is required. *)
Definition int_of_str (s : string) : result Z :=
  of_option ValueError
    match strip s with
    | String "+" r => unsigned (lstrip r)
    | String "-" r => Z.opp <$> unsigned (lstrip r)
    | t => unsigned t
    end.

Definition int (v : pyval) : result Z :=
  match v with
  | PStr s => int_of_str s
  | PInt n => Ok n
  end.

(** [str(v)]. *)
Definition str (v : pyval) : string :=
  match v with
  | PStr s => s
  | PInt n => pretty n
  end.

(** ** Floats *)

(** A finite binary64 value [v] is held as the integer [v * 2^1074]: every
    finite double is a whole number of such units (the smallest
    subnormal is one unit).  Numeric order and equality of floats are
    order and equality of their units.  Neither the sign of zero nor
    infinities and NaN are represented; none of them arises from the
    operations below on the values the scripts build. *)
Definition float : Set := Z.

Definition one : float := 2 ^ 1074.

(** DBL_MAX, [(2^53 - 1) * 2^971]. *)
Definition max_float : float := (2 ^ 53 - 1) * 2 ^ 2045.

(** [n / d] rounded to the nearest integer, ties to the even one
    ([0 <= n], [0 < d]). *)
Definition rne (n d : Z) : Z :=
  let q := n / d in
  let r := n mod d in
  if 2 * r <? d then q
  else if d <? 2 * r then q + 1
  else if Z.even q then q else q + 1.

(** [n / d] units rounded to a double, round-to-nearest-even
    ([0 <= n], [0 < d]): below [2^53] units the spacing of doubles is one
    unit; from there on a double keeps 53 significant bits. *)
Definition round53 (n d : Z) : Z :=
  let k := Z.max 0 (Z.log2 (n / d) - 52) in
  rne n (d * 2 ^ k) * 2 ^ k.

(** The double nearest to [n / d] units, for any sign of [n]. *)
Definition nearest (n d : Z) : float :=
  Z.sgn n * round53 (Z.abs n) d.

(** The least positive [int] that [float] refuses. *)
Definition float_int_bound : Z := 2 ^ 1024 - 2 ^ 970.

(** [float(n)] on an [int]. *)
Definition float_of_int (n : Z) : result float :=
  let f := nearest (n * 2 ^ 1074) 1 in
  if Z.abs f <=? max_float then Ok f else Raise OverflowError.

(** [a / b] on floats.  A quotient beyond DBL_MAX is [inf] in Python,
    which [float] does not hold; it needs [|b| < 1], and the divisors of
    percentage_duplicated are [float(int)], so that branch is never
    taken there (lemma [fdiv_int_divisor_finite]). *)
Definition fdiv (a b : float) : result float :=
  if b =? 0 then Raise ZeroDivisionError
  else
    let f := nearest (a * Z.sgn b * 2 ^ 1074) (Z.abs b) in
    if Z.abs f <=? max_float then Ok f else Raise OverflowError.

(** [round(x, 2)] on a float (Python 2): the exact value of [x] is
    rounded to a whole number of hundredths, halves away from zero, and
    that decimal is converted back to the nearest double. *)
Definition hundredths (x : float) : Z :=
  Z.sgn x * ((Z.abs x * 200 + 2 ^ 1074) / 2 ^ 1075).

Definition round2 (x : float) : float :=
  nearest (hundredths x * 2 ^ 1074) 100.

(** ** [sorted(l, key=...)] *)

(** Python's [sorted] is a stable sort by key.  Each element is put in
    front of the first already placed element whose key is not smaller,
    so elements with equal keys keep the order of the input. *)
Section Sorting.
Context {A : Type} (key : A -> float).

Fixpoint insert (x : A) (l : list A) : list A :=
  match l with
  | [] => [x]
  | y :: l' => if key x <=? key y then x :: l else y :: insert x l'
  end.

Fixpoint sorted (l : list A) : list A :=
  match l with
  | [] => []
  | x :: l' => insert x (sorted l')
  end.
End Sorting.

End Py.

(* ================================================================== *)
(** * sort-duplicates.py *)
(* ================================================================== *)

Module SortDup.
Import Py Py.Notations.

(** An [xml.etree.ElementTree] element: its attributes and its children. *)
#[local] Unset Elimination Schemes.
Inductive Element : Type :=
  | Elem (attrib : gmap string string) (_children : list Element).

#[local] Set Elimination Schemes.

Definition attrib (e : Element) : gmap string string :=
  match e with Elem a _ => a end.
Definition _children (e : Element) : list Element :=
  match e with Elem _ c => c end.

(** An entry [[dupe, path 1, path 2]] of [reduced_filelist]. *)
Record pair : Type := Pair
  { pair0 : pyval; pair1 : string; pair2 : string }.

(** An entry [[dupe, size 1, path 1, size 2, path 2]] of
    [filesizes_array]. *)
Record sized : Type := Sized
  { arr0 : pyval; arr1 : Z; arr2 : string; arr3 : Z; arr4 : string }.

(** An entry [[percent 1, path 1, percent 2, path 2, dupe]] of
    [percent_array]. *)
Record scored : Type := Scored
  { duped0 : float; duped1 : string; duped2 : float; duped3 : string;
    duped4 : pyval }.

Definition marker : string := "../../../".

(** [path.split('../../../')[1]] *)
Definition chop (path : string) : result string :=
  let! pieces := split path marker in
  index pieces 1.

(** The three values the loop body of total_duplication reads from one
    child of the root, in the order it reads them. *)
Definition read_filepair (filepair : Element) : result (string * string * string) :=
  let! child0 := index (_children filepair) 0 in
  let! filepath1 := getitem (attrib child0) "path" in
  let! filepath1 := chop filepath1 in
  let! child1 := index (_children filepair) 1 in
  let! filepath2 := getitem (attrib child1) "path" in
  let! filepath2 := chop filepath2 in
  let! dupe_size := getitem (attrib filepair) "lines" in
  Ok (filepath1, filepath2, dupe_size).

(** The inner loop: the first entry with both paths equal gets the new
    size added, and the scan stops.  [None] stands for [include_pair]
    still being true after the loop. *)
Fixpoint add_to_existing (reduced_filelist : list pair)
    (filepath1 filepath2 dupe_size : string) : result (option (list pair)) :=
  match reduced_filelist with
  | [] => Ok None
  | p :: rest =>
      if (bool_decide (pair1 p = filepath1) && bool_decide (pair2 p = filepath2))%bool
      then
        let! old := int (pair0 p) in
        let! new := int (PStr dupe_size) in
        Ok (Some (Pair (PInt (old + new)) (pair1 p) (pair2 p) :: rest))
      else
        let! r := add_to_existing rest filepath1 filepath2 dupe_size in
        Ok (cons p <$> r)
  end.

(** The outer loop, [reduced_filelist] being the list built so far. *)
Fixpoint total_duplication_loop (filepairs : list Element)
    (reduced_filelist : list pair) : result (list pair) :=
  match filepairs with
  | [] => Ok reduced_filelist
  | filepair :: rest =>
      let! (filepath1, filepath2, dupe_size) := read_filepair filepair in
      let! found := add_to_existing reduced_filelist filepath1 filepath2 dupe_size in
      match found with
      | Some updated => total_duplication_loop rest updated
      | None =>
          total_duplication_loop rest
            (reduced_filelist ++ [Pair (PStr dupe_size) filepath1 filepath2])
      end
  end.

Definition total_duplication (xml_root : Element) : result (list pair) :=
  total_duplication_loop (_children xml_root) [].

(** ** The run-time environment

    [argv] is [sys.argv]; [parse path] is [Tree.parse(path).getroot()];
    [open_file path] gives the lines that iterating over [open(path)]
    yields, or what [open] raises; [str_percent x] is [str(x*100)] for a
    float [x]. *)
Section Run.
Variable argv : list string.
Variable parse : string -> result Element.
Variable open_file : string -> result (list string).
Variable str_percent : float -> string.

(** [enumerate(f)] *)
Definition enumerate {A} (l : list A) : list (nat * A) :=
  imap (fun i x => (i, x)) l.

(** The loop only binds [i]; [None] is [i] not bound yet. *)
Definition file_len (fname : string) : result Z :=
  let! f := open_file fname in
  match foldl (fun _ il => Some (fst il)) None (enumerate f) with
  | Some i => Ok (Z.of_nat i + 1)
  | None => Raise UnboundLocalError
  end.

Definition usage_root : string := "Please provide the path to 'coeci-cms-mpsp'.".
Definition usage_xml : string := "Please provide an xml file.".

(** What is printed, and the list or [None] returned (or the exception
    that leaves the function). *)
Fixpoint find_filesizes_loop (filelist : list pair) (filesizes_array : list sized)
  : list string * result (option (list sized)) :=
  match filelist with
  | [] => ([], Ok (Some filesizes_array))
  | filepair :: rest =>
      match (let! root := index argv 2 in
             let! filesize1 := file_len (root +:+ pair1 filepair) in
             let! root := index argv 2 in
             let! filesize2 := file_len (root +:+ pair2 filepair) in
             Ok (filesize1, filesize2)) with
      | Raise IndexError => ([usage_root], Ok None)
      | Raise e => ([], Raise e)
      | Ok (filesize1, filesize2) =>
          find_filesizes_loop rest
            (filesizes_array ++
             [Sized (pair0 filepair) filesize1 (pair1 filepair)
                    filesize2 (pair2 filepair)])
      end
  end.

Definition find_filesizes (filelist : list pair)
  : list string * result (option (list sized)) :=
  find_filesizes_loop filelist [].

(** [round(float(dupe)/float(size), 2)] *)
Definition percent (dupe size : Z) : result float :=
  let! a := float_of_int dupe in
  let! b := float_of_int size in
  let! q := fdiv a b in
  Ok (round2 q).

Fixpoint percentage_loop (size_array : list sized) : result (list scored) :=
  match size_array with
  | [] => Ok []
  | arr :: rest =>
      let! dupe := int (arr0 arr) in
      let! percent1 := percent dupe (arr1 arr) in
      let! percent2 := percent dupe (arr3 arr) in
      let! percent_array := percentage_loop rest in
      Ok (Scored percent1 (arr2 arr) percent2 (arr4 arr) (arr0 arr)
          :: percent_array)
  end.

(** Iterating over [None] is a TypeError. *)
Definition percentage_duplicated (size_array : option (list sized))
  : result (list scored) :=
  match size_array with
  | None => Raise TypeError
  | Some l => percentage_loop l
  end.

Definition sort_files (percent_array : list scored) : list scored :=
  sorted duped0 percent_array.

Definition newline : string := String "010"%char EmptyString.

(** The arguments of the four [print] calls per entry. *)
Definition prettyprint_filelist (files : list scored) : list string :=
  flat_map
    (fun duped_file =>
       [ "PAIR: " +:+ str (duped4 duped_file) +:+ " lines in common:";
         "  " +:+ str_percent (duped0 duped_file) +:+ "% of " +:+ duped1 duped_file;
         "  " +:+ str_percent (duped2 duped_file) +:+ "% of " +:+ duped3 duped_file;
         newline ])
    files.

(** What a run prints, and how it ends: [Ok tt] when [main] returns
    ([None] on every path), [Raise e] when [e] leaves [main] uncaught. *)
Definition main : list string * result unit :=
  match (let! path := index argv 1 in parse path) with
  | Raise IndexError => ([usage_xml], Ok tt)
  | Raise e => ([], Raise e)
  | Ok root =>
      match total_duplication root with
      | Raise e => ([], Raise e)
      | Ok shorter_filelist =>
          match find_filesizes shorter_filelist with
          | (out, Raise e) => (out, Raise e)
          | (out, Ok array_of_sizes) =>
              match percentage_duplicated array_of_sizes with
              | Raise TypeError => (out, Ok tt)
              | Raise e => (out, Raise e)
              | Ok array_of_percents =>
                  let file_list := sort_files array_of_percents in
                  (out ++ prettyprint_filelist file_list, Ok tt)
              end
          end
      end
  end.
End Run.

End SortDup.

(* ================================================================== *)
(** * csv2wiki.py *)
(* ================================================================== *)

Module Csv2Wiki.
Import Py Py.Notations.

(** The [section] argument of [page.save]: a number or ['new']. *)
Inductive section_arg : Set :=
  | Numbered (n : nat)
  | New.

(** One call [site.pages[page].save(text, section=, sectiontitle=)];
    the two keywords are absent for the contents and category pages. *)
Record save_call : Set := SaveCall
  { page : string; text : string;
    section : option section_arg; sectiontitle : option string }.

(** What the script does to the outside: it prints, and it calls [save],
    which the site accepts or answers with an APIError. *)
Inductive event : Set :=
  | Print (s : string)
  | Save (c : save_call) (accepted : bool).

(** The module-level variables the loops update, and the events so far.
    [title] is [None] until the first assignment; [page] is always
    [site.pages[title]]. *)
Record state : Set := State
  { toc_text : string; categories : list string;
    title : option string; log : list event }.

Definition emit (e : event) (st : state) : state :=
  State (toc_text st) (categories st) (title st) (log st ++ [e]).

Definition newline : string := String "010"%char EmptyString.

Section Script.
(** The site's answer to a call, given everything that happened
    before it. *)
Variable site : list event -> save_call -> bool.

Definition save (c : save_call) (st : state) : state * result unit :=
  let accepted := site (log st) c in
  (emit (Save c accepted) st, if accepted then Ok tt else Raise APIError).

(** The branch [if cell_num == 0]. *)
Definition new_page (row_num : nat) (cell : string) (st : state) : state :=
  let t := "Proposal_" +:+ pretty row_num +:+ ": " +:+ cell in
  emit (Print t)
    (State (toc_text st +:+ "* [[" +:+ t +:+ "]] " +:+ newline)
           (categories st) (Some t) (log st)).

(** [if cell not in categories: categories.append(cell)] *)
Definition add_category (cell : string) (st : state) : state :=
  if bool_decide (cell ∈ categories st) then st
  else State (toc_text st) (categories st ++ [cell]) (title st) (log st).

(** The body of [for cell in row] at position [cell_num] of a row of
    [len_row] cells.  The test [cell is not ""] is read as a test for
    a non-empty cell: the interpreter shares one empty string. *)
Definition cell_step (header_array : list string) (row_num len_row cell_num : nat)
    (cell : string) (st : state) : state * result unit :=
  let st := if bool_decide (cell_num = 0%nat) then new_page row_num cell st else st in
  if bool_decide (cell = "") then (st, Ok tt)
  else
    let last := bool_decide (Z.of_nat cell_num = Z.of_nat len_row - 1) in
    let cell_text := if last then "[[Category:" +:+ cell +:+ "]]" else cell in
    let st := if last then add_category cell st else st in
    match title st with
    | None => (st, Raise NameError)
    | Some t =>
        match index header_array cell_num with
        | Raise e => (st, Raise e)
        | Ok heading =>
            match save (SaveCall t cell_text (Some (Numbered cell_num)) (Some heading)) st with
            | (st, Raise APIError) =>
                save (SaveCall t cell_text (Some New) (Some heading)) st
            | other => other
            end
        end
    end.

Fixpoint cells_loop (header_array : list string) (row_num len_row cell_num : nat)
    (cells : list string) (st : state) : state * result unit :=
  match cells with
  | [] => (st, Ok tt)
  | cell :: rest =>
      match cell_step header_array row_num len_row cell_num cell st with
      | (st, Ok _) => cells_loop header_array row_num len_row (S cell_num) rest st
      | stop => stop
      end
  end.

(** The [else] branch of the row loop: one data row. *)
Definition data_row (header_array : list string) (row_num : nat)
    (row : list string) (st : state) : state * result unit :=
  cells_loop header_array row_num (length row) 0 row st.

(** [for row in reader]: the first row gives the headers. *)
Fixpoint rows_loop (header_array : option (list string)) (row_num : nat)
    (rows : list (list string)) (st : state) : state * result unit :=
  match rows with
  | [] => (st, Ok tt)
  | row :: rest =>
      match header_array with
      | None => rows_loop (Some row) (S row_num) rest st
      | Some h =>
          match data_row h row_num row st with
          | (st, Ok _) => rows_loop header_array (S row_num) rest st
          | stop => stop
          end
      end
  end.

(** [for category in categories] at the end of the script. *)
Fixpoint category_pages (cats : list string) (st : state) : state * result unit :=
  match cats with
  | [] => (st, Ok tt)
  | category :: rest =>
      match save (SaveCall ("Category:" +:+ category) "" None None)
                 (emit (Print category) st) with
      | (st, Ok _) => category_pages rest st
      | stop => stop
      end
  end.

(** The script from [# read in csv] on, for the rows the reader
    yields. *)
Definition script (rows : list (list string)) : state * result unit :=
  match rows_loop None 0 rows (State "" [] None []) with
  | (st, Ok _) =>
      match save (SaveCall "List of Proposals" (toc_text st) None None) st with
      | (st, Ok _) => category_pages (categories st) st
      | stop => stop
      end
  | stop => stop
  end.
End Script.

End Csv2Wiki.

(* ================================================================== *)
(** * The vocabulary of the specification *)
(* ================================================================== *)

Module Spec.
Import Py SortDup Csv2Wiki.

(** A Clone Record: two normalised paths and a number of lines. *)
Record clone : Type := Clone
  { path_1 : string; path_2 : string; lines : Z }.

(** The ordered pair of paths of a record, and of an output entry. *)
Definition clone_key (c : clone) : string * string := (path_1 c, path_2 c).
Definition pair_key (p : pair) : string * string := (pair1 p, pair2 p).

(** A child of the report's root carries the record [c]: the loop body
    reads the two paths of [c] from it, and a string that [int] turns
    into its number of lines. *)
Definition carries (filepair : Element) (c : clone) : Prop :=
  exists dupe_size,
    read_filepair filepair = Ok (path_1 c, path_2 c, dupe_size)
    /\ int_of_str dupe_size = Ok (lines c).

(** The sum of [lines] over the records whose ordered pair is [k]. *)
Fixpoint total_lines (k : string * string) (recs : list clone) : Z :=
  match recs with
  | [] => 0
  | c :: recs' =>
      (if decide (clone_key c = k) then lines c else 0) + total_lines k recs'
  end.

(** The distinct values of a list in the order of their first
    occurrence. *)
Fixpoint first_seen {K} `{EqDecision K} (l : list K) : list K :=
  match l with
  | [] => []
  | k :: l' => k :: filter (fun x => x <> k) (first_seen l')
  end.

(** The list [acc] aggregates the records [recs]: its ordered pairs are
    those of the records in first-seen order, and each count reads as
    the sum of [lines] over the records of its pair. *)
Definition aggregates (acc : list pair) (recs : list clone) : Prop :=
  pair_key <$> acc = first_seen (clone_key <$> recs)
  /\ Forall (fun e => int (pair0 e) = Ok (total_lines (pair_key e) recs)) acc.

(** The [path] attribute of the first and of the second child of an
    element of the report. *)
Definition first_path (filepair : Element) (path : string) : Prop :=
  exists child0,
    _children filepair !! 0%nat = Some child0 /\ attrib child0 !! "path" = Some path.
Definition second_path (filepair : Element) (path : string) : Prop :=
  exists child1,
    _children filepair !! 1%nat = Some child1 /\ attrib child1 !! "path" = Some path.

(** A Sized Pair of the data model: a count that [int] reads, not
    negative, and two line counts of at least one, all of them ints that
    [float] accepts. *)
Definition well_sized (arr : sized) : Prop :=
  exists dupe,
    int (arr0 arr) = Ok dupe
    /\ 0 <= dupe < float_int_bound
    /\ 1 <= arr1 arr < float_int_bound
    /\ 1 <= arr3 arr < float_int_bound.

(** [p] is a percentage in [[0, 1]] with two decimals: the double
    nearest to some whole number of hundredths from 0 to 100. *)
Definition unit_percentage (p : float) : Prop :=
  0 <= p <= one /\ exists h, 0 <= h <= 100 /\ p = nearest (h * 2 ^ 1074) 100.

(** [p] is [round(total / line_count, 2)] as Python evaluates it on two
    ints turned into floats: [float] of each int, the quotient of the two
    floats, and that quotient rounded to two decimals. *)
Definition rounded_ratio (total line_count : Z) (p : float) : Prop :=
  exists a b q,
    float_of_int total = Ok a
    /\ float_of_int line_count = Ok b
    /\ fdiv a b = Ok q
    /\ p = round2 q.

(** Below this bound a double holds every int exactly. *)
Definition exact_int_bound : Z := 2 ^ 53.

(** [p] is the ratio [total / line_count] to two decimals, in exact
    arithmetic: the double nearest to [h / 100] for a whole number [h]
    of hundredths that is off the ratio by half a hundredth at most, but
    for the rounding of the float quotient, one part in [2^53] of the
    ratio:
    [|h/100 - total/line_count| <= 1/200 + total/line_count * 2^-53],
    cleared of its denominators. *)
Definition two_decimals (total line_count : Z) (p : float) : Prop :=
  exists h,
    p = nearest (h * 2 ^ 1074) 100
    /\ Z.abs (h * line_count - 100 * total) * 2 ^ 53
       <= line_count * 2 ^ 52 + 100 * total.

(** The Scored Pair [d] is the one the Percentage Calculator owes for
    the Sized Pair [arr]: each percentage is the rounded ratio of the
    count to the size of its own file; paths and count are carried
    over. *)
Definition scores (arr : sized) (d : scored) : Prop :=
  exists dupe,
    int (arr0 arr) = Ok dupe
    /\ rounded_ratio dupe (arr1 arr) (duped0 d)
    /\ rounded_ratio dupe (arr3 arr) (duped2 d)
    /\ duped1 d = arr2 arr /\ duped3 d = arr4 arr /\ duped4 d = arr0 arr
    /\ (dupe <= arr1 arr -> unit_percentage (duped0 d))
    /\ (dupe <= arr3 arr -> unit_percentage (duped2 d))
    /\ (dupe < exact_int_bound -> arr1 arr < exact_int_bound ->
        two_decimals dupe (arr1 arr) (duped0 d))
    /\ (dupe < exact_int_bound -> arr3 arr < exact_int_bound ->
        two_decimals dupe (arr3 arr) (duped2 d)).

(** The title of the page of a data row. *)
Definition proposal_title (row_num : nat) (first_cell : string) : string :=
  "Proposal_" +:+ pretty row_num +:+ ": " +:+ first_cell.




(** The Category Set after a row: its last cell is added when it is not
    empty and not yet in the set. *)
Definition with_category (cats row : list string) : list string :=
  match last row with
  | Some cell =>
      if decide (cell = "" \/ cell ∈ cats) then cats else cats ++ [cell]
  | None => cats
  end.

(** Order of two entries by their sort key. *)
Definition key_le {A} (key : A -> float) (a b : A) : Prop := key a <= key b.

End Spec.

(* ================================================================== *)
(** * Sample inputs *)
(* ================================================================== *)

Module Samples.
Import Py SortDup Spec.

(** A child of the report's root, as CPD writes it. *)
Definition filepair_elem (path1 path2 lines : string) : Element :=
  Elem {[ "lines" := lines ]}
       [Elem {[ "path" := path1 ]} []; Elem {[ "path" := path2 ]} []].

(** Three records: two for (A, B), one for (B, A). *)
Definition report : Element :=
  Elem ∅ [ filepair_elem "/home/x/../../../A" "../../../B" "50";
           filepair_elem "../../../B" "../../../A" "7";
           filepair_elem "../../../A" "../../../B" "30" ].

Definition report_clones : list clone :=
  [ Clone "A" "B" 50; Clone "B" "A" 7; Clone "A" "B" 30 ].

Definition empty_report : Element := Elem ∅ [].

(** A report whose first path lacks the marker. *)
Definition unmarked_report : Element :=
  Elem ∅ [ filepair_elem "src/A.java" "../../../B" "12" ].

(** A source tree with a file A of 200 lines and a file B of 400. *)
Definition tree (fname : string) : result (list string) :=
  if bool_decide (fname = "tree/A") then Ok (replicate 200 "line")
  else if bool_decide (fname = "tree/B") then Ok (replicate 400 "line")
  else Raise IOError.

(** Command lines with and without the two arguments. *)
Definition argv_full : list string := ["sort-duplicates.py"; "report.xml"; "tree/"].
Definition argv_no_root : list string := ["sort-duplicates.py"; "report.xml"].
Definition argv_bare : list string := ["sort-duplicates.py"].

(** A stand-in for [str(x*100)]: the hundredths of [x] in decimal. *)
Definition show_percent (x : float) : string := pretty (hundredths x).

End Samples.

(* ================================================================== *)
(** * Further notions *)
(* ================================================================== *)

Module Further.
Import Py SortDup Csv2Wiki Spec.

(** [sep.join(l)] *)
Fixpoint join (sep : string) (l : list string) : string :=
  match l with
  | [] => ""
  | a :: l' =>
      match l' with
      | [] => a
      | _ => a +:+ sep +:+ join sep l'
      end
  end.

(** [s[n:]] *)
Fixpoint drop_str (n : nat) (s : string) : string :=
  match n, s with
  | O, _ => s
  | S _, EmptyString => EmptyString
  | S k, String _ s' => drop_str k s'
  end.

(** An occurrence of [sep] in [cur +:+ s] that starts inside [cur]. *)
Definition starts_inside (sep cur s : string) : Prop :=
  exists pre post,
    cur +:+ s = pre +:+ sep +:+ post
    /\ (String.length pre < String.length cur)%nat.

(** [sep] first occurs in [s] right behind [pre], with [post] behind
    it: no occurrence of [sep] in [s] starts further to the left. *)
Definition first_split (sep s pre post : string) : Prop :=
  s = pre +:+ sep +:+ post
  /\ forall pre' post',
       s = pre' +:+ sep +:+ post' ->
       (String.length pre <= String.length pre')%nat.

(** The sum of a list of ints. *)
Definition sumZ (l : list Z) : Z := foldr Z.add 0 l.

(** The entry that total_duplication appends for a record it has not
    seen: the count is the string of the report. *)
Definition fresh_pair (t : string * string * string) : pair :=
  Pair (PStr t.2) t.1.1 t.1.2.

(** The entry [a] of [filesizes_array] is the one find_filesizes builds
    from the entry [p] of its argument: count and paths are carried
    over, the sizes are those file_len finds under the root given as
    second argument of the command line. *)
Definition sized_from (argv : list string)
    (open_file : string -> result (list string)) (p : pair) (a : sized) : Prop :=
  arr0 a = pair0 p /\ arr2 a = pair1 p /\ arr4 a = pair2 p
  /\ exists root,
       argv !! 2%nat = Some root
       /\ file_len open_file (root +:+ pair1 p) = Ok (arr1 a)
       /\ file_len open_file (root +:+ pair2 p) = Ok (arr3 a).

(** Under the directory [dir] the path [p] names a file that has at
    least one line, and a line count that [float] accepts. *)
Definition countable_file (open_file : string -> result (list string))
    (dir p : string) : Prop :=
  exists f : list string,
    open_file (dir +:+ p) = Ok f /\ f <> []
    /\ Z.of_nat (length f) < float_int_bound.

(** The two paths of a Scored Pair. *)
Definition scored_key (d : scored) : string * string := (duped1 d, duped3 d).

(** The line of the contents page for a data row: none for a row
    without cells. *)
Definition toc_line (row_num : nat) (row : list string) : string :=
  match row with
  | [] => ""
  | cell :: _ =>
      "* [[" +:+ proposal_title row_num cell +:+ "]] " +:+ Csv2Wiki.newline
  end.

(** The lines for the data rows from number [row_num] on. *)
Fixpoint toc_of (row_num : nat) (rows : list (list string)) : string :=
  match rows with
  | [] => ""
  | row :: rest => toc_line row_num row +:+ toc_of (S row_num) rest
  end.

(** Every non-empty cell of the row, from position [k] on, has a
    heading. *)
Definition headed (header : list string) (k : nat) (cells : list string) : Prop :=
  forall j cell,
    cells !! j = Some cell -> cell <> "" -> (k + j < length header)%nat.

(** What the script does for a category at its end. *)
Definition category_events (category : string) : list event :=
  [Print category;
   Save (SaveCall ("Category:" +:+ category) "" None None) true].

(** The Category Set [cats'] comes from [cats] by one row whose last
    cell is [last_cell]: nothing is added, or that cell is, being neither
    empty nor in the set. *)
Definition category_step (last_cell : option string)
    (cats cats' : list string) : Prop :=
  cats' = cats
  \/ exists cell, last_cell = Some cell /\ cell <> "" /\ (cell ∉ cats)
                  /\ cats' = cats ++ [cell].

(** The category a data row names: its last cell, unless it is empty. *)
Definition row_category (row : list string) : option string :=
  match last row with
  | Some cell => if decide (cell = "") then None else Some cell
  | None => None
  end.

(** The categories of the data rows, each once, in the order of their
    first row. *)
Definition categories_of (rows : list (list string)) : list string :=
  first_seen (omap row_category rows).

(** A string of decimal digits. *)
Fixpoint all_digits (s : string) : bool :=
  match s with
  | EmptyString => true
  | String c s' => (bool_decide (is_Some (digit c)) && all_digits s')%bool
  end.

End Further.

(* ================================================================== *)
(** * Properties of the Python fragment *)
(* ================================================================== *)

Module PyFacts.
Import Py Py.Notations Spec.

(** ** Strings *)

Lemma append_cons (c : ascii) (s t : string) :
  String c s +:+ t = String c (s +:+ t).
Proof. reflexivity. Qed.

Lemma append_nil_r (s : string) : s +:+ "" = s.
Proof. induction s as [|c s IH]; [done | by rewrite append_cons, IH]. Qed.

Lemma append_assoc (a b c : string) : (a +:+ b) +:+ c = a +:+ (b +:+ c).
Proof. induction a as [|x a IH]; [done | by rewrite !append_cons, IH]. Qed.

Lemma append_snoc (cur : string) (c : ascii) (s : string) :
  (cur +:+ String c "") +:+ s = cur +:+ String c s.
Proof. by rewrite append_assoc. Qed.

Lemma prefix_append (a b : string) :
  String.prefix a b = true <-> exists r, b = a +:+ r.
Proof.
  revert b. induction a as [|x a IH]; intros b; simpl.
  - destruct b; split; eauto.
  - destruct b as [|y b]; simpl.
    + split; [done | intros [r Hr]; discriminate].
    + destruct (ascii_dec x y) as [->|Hne].
      * rewrite IH. split; intros [r Hr]; exists r.
        -- by rewrite append_cons, Hr.
        -- rewrite append_cons in Hr. congruence.
      * split; [done | intros [r Hr]].
        rewrite append_cons in Hr. congruence.
Qed.

Lemma prefix_occurs (sep s : string) :
  String.prefix sep s = true -> occurs sep s.
Proof. intros [r ->]%prefix_append. by exists "", r. Qed.

Lemma occurs_tail (sep : string) (c : ascii) (s : string) :
  occurs sep s -> occurs sep (String c s).
Proof. intros (pre & post & ->). by exists (String c pre), post. Qed.

(** Without an occurrence of the separator the scan closes one piece
    only: the whole string. *)
Lemma split_go_absent (sep cur s : string) :
  ~ occurs sep s -> split_go sep 0 cur s = [cur +:+ s].
Proof.
  revert cur. induction s as [|c s IH]; intros cur Hno; cbn [split_go].
  - by rewrite append_nil_r.
  - destruct (String.prefix sep (String c s)) eqn:Hp.
    + destruct Hno. by apply prefix_occurs.
    + rewrite IH.
      * by rewrite append_snoc.
      * intros Ho. apply Hno. by apply occurs_tail.
Qed.

Lemma occursb_spec (sep s : string) : occursb sep s = true <-> occurs sep s.
Proof.
  induction s as [|c s IH]; cbn [occursb]; rewrite orb_true_iff.
  - split.
    + intros [H|H]; [by apply prefix_occurs | done].
    + intros (pre & post & H). left. apply prefix_append.
      destruct pre; [by exists post | done].
  - rewrite IH. split.
    + intros [H|H]; [by apply prefix_occurs | by apply occurs_tail].
    + intros (pre & post & H). destruct pre as [|x pre].
      * left. apply prefix_append. by exists post.
      * right. rewrite append_cons in H. injection H as _ ->.
        by exists pre, post.
Qed.

Lemma split_go_nonempty (sep cur s : string) (skip : nat) :
  exists a rest, split_go sep skip cur s = a :: rest.
Proof.
  revert skip cur. induction s as [|c s IH]; intros skip cur; cbn [split_go].
  - eauto.
  - destruct skip; [| apply IH].
    destruct (String.prefix sep (String c s)); [eauto | apply IH].
Qed.

(** With an occurrence of the separator the scan closes two pieces at
    least. *)
Lemma split_go_present (sep cur s : string) :
  occurs sep s -> sep <> "" ->
  exists a b rest, split_go sep 0 cur s = a :: b :: rest.
Proof.
  intros Ho Hsep. revert cur Ho.
  induction s as [|c s IH]; intros cur (pre & post & H).
  - destruct pre; [| done]. destruct sep; done.
  - cbn [split_go]. destruct (String.prefix sep (String c s)) eqn:Hp.
    + destruct (split_go_nonempty sep "" s (Nat.pred (String.length sep)))
        as (b & rest & ->). eauto.
    + apply IH. destruct pre as [|x pre].
      * assert (String.prefix sep (String c s) = true); [| congruence].
        apply prefix_append. by exists post.
      * rewrite append_cons in H. injection H as _ ->. by exists pre, post.
Qed.

Lemma split_go_skip (sep cur a b : string) :
  split_go sep (String.length a) cur (a +:+ b) = split_go sep 0 cur b.
Proof.
  induction a as [|c a IH]; [by destruct b |].
  by rewrite append_cons.
Qed.

(** With one occurrence of the separator and no other, the scan closes
    what is before it and what is behind it. *)
Lemma split_go_once (sep pre post : string) :
  sep <> "" ->
  (forall pre' post', pre +:+ sep +:+ post = pre' +:+ sep +:+ post' -> pre' = pre) ->
  forall cur, split_go sep 0 cur (pre +:+ sep +:+ post) = [cur +:+ pre; post].
Proof.
  intros Hsep. induction pre as [|c pre IH]; intros Huniq cur.
  - destruct sep as [|x sep]; [done |]. clear Hsep.
    change ("" +:+ String x sep +:+ post) with (String x (sep +:+ post)).
    cbn [split_go].
    assert (String.prefix (String x sep) (String x (sep +:+ post)) = true) as ->
      by (apply prefix_append; by exists post).
    cbn [String.length Nat.pred]. rewrite split_go_skip, split_go_absent.
    + by rewrite append_nil_r.
    + intros (p & q & Hpost).
      specialize (Huniq (String x sep +:+ p) q).
      rewrite Hpost, !append_assoc in Huniq. by specialize (Huniq eq_refl).
  - rewrite append_cons. cbn [split_go].
    destruct (String.prefix sep (String c (pre +:+ sep +:+ post))) eqn:Hp.
    + apply prefix_append in Hp as [r Hr].
      specialize (Huniq "" r). rewrite append_cons in Huniq.
      by specialize (Huniq Hr).
    + rewrite IH; [by rewrite append_snoc |].
      intros pre' post' Heq. specialize (Huniq (String c pre') post').
      rewrite !append_cons in Huniq. rewrite Heq in Huniq.
      specialize (Huniq eq_refl). by injection Huniq.
Qed.

Lemma split_absent (sep s : string) :
  sep <> "" -> ~ occurs sep s -> split s sep = Ok [s].
Proof.
  intros Hsep Hno. unfold split. destruct sep; [done |].
  by rewrite split_go_absent.
Qed.

(** ** Floats *)

Lemma rne_bounds n d : n / d <= rne n d <= n / d + 1.
Proof. unfold rne. repeat case_match; lia. Qed.

Lemma div_cross n d n' d' :
  0 < d -> 0 < d' -> n * d' <= n' * d -> n / d <= n' / d'.
Proof.
  intros Hd Hd' H. apply Z.div_le_lower_bound; [lia|].
  pose proof (Z.mul_div_le n d Hd). nia.
Qed.

Lemma rne_mono n d n' d' :
  0 < d -> 0 < d' -> n * d' <= n' * d -> rne n d <= rne n' d'.
Proof.
  intros Hd Hd' H.
  pose proof (div_cross _ _ _ _ Hd Hd' H) as Hq.
  pose proof (rne_bounds n d) as B. pose proof (rne_bounds n' d') as B'.
  destruct (Z.eq_dec (n / d) (n' / d')) as [E|E]; [|lia].
  unfold rne in *. rewrite <- E in *.
  pose proof (Z.div_mod n d ltac:(lia)) as M.
  pose proof (Z.div_mod n' d' ltac:(lia)) as M'. rewrite <- E in M'.
  pose proof (Z.mod_pos_bound n d Hd). pose proof (Z.mod_pos_bound n' d' Hd').
  set (q := n / d) in *. set (r := n mod d) in *. set (r' := n' mod d') in *.
  assert (r * d' <= r' * d) by nia.
  destruct (Z.ltb_spec (2 * r) d), (Z.ltb_spec d (2 * r)),
           (Z.ltb_spec (2 * r') d'), (Z.ltb_spec d' (2 * r')),
           (Z.even q); try lia; nia.
Qed.

Lemma rne_nonneg n d : 0 <= n -> 0 < d -> 0 <= rne n d.
Proof.
  intros Hn Hd. pose proof (rne_bounds n d). pose proof (Z.div_pos n d Hn Hd). lia.
Qed.

Lemma round53_nonneg n d : 0 <= n -> 0 < d -> 0 <= round53 n d.
Proof.
  intros Hn Hd. unfold round53.
  set (k := Z.max 0 _). assert (0 < 2 ^ k) by (apply Z.pow_pos_nonneg; lia).
  pose proof (rne_nonneg n (d * 2 ^ k) Hn ltac:(nia)). nia.
Qed.

(* upper bound of a rounded value by its exponent *)
Lemma round53_upper n d k :
  0 <= n -> 0 < d -> k = Z.max 0 (Z.log2 (n / d) - 52) ->
  rne n (d * 2 ^ k) * 2 ^ k <= 2 ^ (53 + k).
Proof.
  intros Hn Hd Hk.
  assert (0 <= k) by lia.
  assert (0 < 2 ^ k) by (apply Z.pow_pos_nonneg; lia).
  pose proof (Z.div_pos n d Hn ltac:(lia)) as Hq.
  assert (n / d < 2 ^ (53 + k)) as Hlt.
  { destruct (Z.eq_dec (n / d) 0) as [->|Hne].
    - apply Z.pow_pos_nonneg; lia.
    - pose proof (Z.log2_spec (n / d) ltac:(lia)) as [_ Hup].
      eapply Z.lt_le_trans; [exact Hup|].
      apply Z.pow_le_mono_r; lia. }
  rewrite Z.pow_add_r in * by lia.
  assert (n / (d * 2 ^ k) < 2 ^ 53).
  { rewrite <- Z.div_div by lia. apply Z.div_lt_upper_bound; lia. }
  pose proof (rne_bounds n (d * 2 ^ k)).
  apply Z.mul_le_mono_nonneg_r; lia.
Qed.

Lemma round53_lower n d k :
  0 <= n -> 0 < d -> 0 < k -> k = Z.log2 (n / d) - 52 ->
  2 ^ (52 + k) <= rne n (d * 2 ^ k) * 2 ^ k.
Proof.
  intros Hn Hd Hk Ek.
  assert (0 < 2 ^ k) by (apply Z.pow_pos_nonneg; lia).
  assert (0 < n / d) as Hq.
  { destruct (Z.eq_dec (n / d) 0) as [E|E].
    - rewrite E in Ek. simpl in Ek. lia.
    - pose proof (Z.div_pos n d Hn ltac:(lia)). lia. }
  pose proof (Z.log2_spec (n / d) Hq) as [Hlo _].
  replace (Z.log2 (n / d)) with (52 + k) in Hlo by lia.
  rewrite Z.pow_add_r in * by lia.
  assert (2 ^ 52 <= n / (d * 2 ^ k)).
  { rewrite <- Z.div_div by lia. apply Z.div_le_lower_bound; lia. }
  pose proof (rne_bounds n (d * 2 ^ k)).
  apply Z.mul_le_mono_nonneg_r; lia.
Qed.

Lemma round53_mono n d n' d' :
  0 <= n -> 0 < d -> 0 < d' -> n * d' <= n' * d ->
  round53 n d <= round53 n' d'.
Proof.
  intros Hn Hd Hd' H.
  assert (0 <= n') by nia.
  pose proof (div_cross _ _ _ _ Hd Hd' H) as Hq.
  pose proof (Z.log2_le_mono _ _ Hq) as Hl.
  unfold round53.
  remember (Z.max 0 (Z.log2 (n / d) - 52)) as k eqn:Ek.
  remember (Z.max 0 (Z.log2 (n' / d') - 52)) as k' eqn:Ek'.
  assert (0 <= k <= k') as [Hk Hkk'] by lia.
  destruct (Z.eq_dec k k') as [<-|Hne].
  - assert (0 < 2 ^ k) by (apply Z.pow_pos_nonneg; lia).
    apply Z.mul_le_mono_nonneg_r; [lia|].
    apply rne_mono; nia.
  - etransitivity; [by apply round53_upper|].
    etransitivity; [|apply round53_lower; lia].
    apply Z.pow_le_mono_r; lia.
Qed.

Lemma round53_zero d : 0 < d -> round53 0 d = 0.
Proof.
  intros Hd. unfold round53, rne. rewrite !Zdiv_0_l, !Zmod_0_l.
  change (Z.max 0 (Z.log2 0 - 52)) with 0.
  rewrite Z.pow_0_r.
  by rewrite (proj2 (Z.ltb_lt _ _)) by lia.
Qed.

Lemma round53_one : round53 one 1 = one.
Proof. by vm_compute. Qed.

Lemma round53_max_float : round53 max_float 1 = max_float.
Proof. by vm_compute. Qed.

Lemma one_pos : 0 < one.
Proof. by vm_compute. Qed.

Lemma one_le_max_float : one <= max_float.
Proof. by vm_compute. Qed.

Lemma nearest_nonneg n d : 0 <= n -> 0 < d -> nearest n d = round53 n d.
Proof.
  intros Hn Hd. unfold nearest. destruct (Z.eq_dec n 0) as [->|Hne].
  - change (Z.sgn 0) with 0. by rewrite Z.mul_0_l, round53_zero.
  - rewrite Z.sgn_pos, Z.abs_eq by lia. lia.
Qed.

(** Rounding keeps a quotient of at most 1 at most [one]. *)
Lemma nearest_le_one n d :
  0 <= n -> 0 < d -> n <= one * d -> 0 <= nearest n d <= one.
Proof.
  intros Hn Hd H. rewrite nearest_nonneg by done. split.
  - by apply round53_nonneg.
  - rewrite <- round53_one. apply round53_mono; lia.
Qed.

Lemma round53_int_bound : round53 ((float_int_bound - 1) * 2 ^ 1074) 1 = max_float.
Proof. by vm_compute. Qed.

Lemma abs_nearest n d : 0 < d -> Z.abs (nearest n d) = round53 (Z.abs n) d.
Proof.
  intros Hd. unfold nearest.
  pose proof (round53_nonneg (Z.abs n) d (Z.abs_nonneg n) Hd).
  destruct n as [|p|p]; cbn [Z.sgn].
  - change (Z.abs 0) with 0. rewrite round53_zero by done. lia.
  - set (r := round53 _ d) in *. lia.
  - set (r := round53 _ d) in *. lia.
Qed.

(** [float] accepts every [int] below the bound. *)
Lemma float_of_int_ok n :
  Z.abs n < float_int_bound ->
  exists f, float_of_int n = Ok f /\ Z.abs f <= max_float.
Proof.
  intros Hn. unfold float_of_int.
  assert (Z.abs (nearest (n * 2 ^ 1074) 1) <= max_float) as Hle.
  { rewrite abs_nearest by lia. rewrite <- round53_int_bound.
    assert (0 < 2 ^ 1074) by (by apply Z.pow_pos_nonneg).
    apply round53_mono; [lia | lia | lia |].
    rewrite Z.abs_mul, (Z.abs_eq (2 ^ 1074)) by lia. nia. }
  apply Z.leb_le in Hle as Hb. rewrite Hb. eauto.
Qed.

(** [float] on a positive [int] is at least 1.0, and [float] keeps the
    order of non-negative ints. *)
Lemma float_of_int_ge_one n f : 1 <= n -> float_of_int n = Ok f -> one <= f.
Proof.
  unfold float_of_int. intros Hn Hf.
  destruct (_ <=? _); [| done]. injection Hf as <-.
  assert (0 < 2 ^ 1074) by (by apply Z.pow_pos_nonneg).
  rewrite nearest_nonneg by lia.
  rewrite <- round53_one at 1. unfold one. apply round53_mono; lia.
Qed.

Lemma float_of_int_mono m n a b :
  0 <= m <= n -> float_of_int m = Ok a -> float_of_int n = Ok b -> 0 <= a <= b.
Proof.
  unfold float_of_int. intros Hmn Ha Hb.
  destruct (_ <=? _); [| done]. injection Ha as <-.
  destruct (_ <=? _); [| done]. injection Hb as <-.
  assert (0 < 2 ^ 1074) by (by apply Z.pow_pos_nonneg).
  rewrite !nearest_nonneg by lia. split.
  - apply round53_nonneg; lia.
  - apply round53_mono; nia.
Qed.

Lemma float_of_int_nonzero n f : float_of_int n = Ok f -> n <> 0 -> f <> 0.
Proof.
  unfold float_of_int. intros Hf Hn.
  destruct (_ <=? _); [| done]. injection Hf as <-.
  assert (0 < 2 ^ 1074) as Hu by (by apply Z.pow_pos_nonneg).
  assert (one <= Z.abs (nearest (n * 2 ^ 1074) 1)); [| pose proof one_pos; lia].
  rewrite abs_nearest by lia. rewrite <- round53_one at 1. unfold one.
  apply round53_mono; [lia | lia | lia |].
  rewrite Z.abs_mul, (Z.abs_eq (2 ^ 1074)) by lia. nia.
Qed.

(** Dividing a finite float by one of magnitude 1.0 or more stays
    finite. *)
Lemma fdiv_int_divisor_finite a b :
  Z.abs a <= max_float -> one <= Z.abs b -> exists q, fdiv a b = Ok q.
Proof.
  intros Ha Hb. unfold fdiv. pose proof one_pos as H1.
  rewrite (proj2 (Z.eqb_neq b 0)) by lia.
  assert (Z.abs (nearest (a * Z.sgn b * 2 ^ 1074) (Z.abs b)) <= max_float) as Hle.
  { rewrite abs_nearest by lia. rewrite <- round53_max_float.
    apply round53_mono; [lia | lia | lia |].
    rewrite !Z.abs_mul. fold one.
    assert (Z.abs (Z.sgn b) = 1) as -> by (destruct b; cbn [Z.sgn]; lia).
    rewrite (Z.abs_eq one) by lia.
    generalize dependent max_float. generalize dependent one.
    intros u Hu Hb m Ha. nia. }
  apply Z.leb_le in Hle as ->. eauto.
Qed.

(** A quotient of at most 1 is rounded to at most 1.0. *)
Lemma fdiv_le_one a b :
  0 <= a <= b -> 0 < b -> exists q, fdiv a b = Ok q /\ 0 <= q <= one.
Proof.
  intros Hab Hb. unfold fdiv.
  rewrite (proj2 (Z.eqb_neq b 0)) by lia.
  rewrite Z.sgn_pos, Z.mul_1_r, (Z.abs_eq b) by lia.
  assert (0 < 2 ^ 1074) by (by apply Z.pow_pos_nonneg).
  pose proof (nearest_le_one (a * 2 ^ 1074) b) as Hq.
  unfold one in Hq at 1. specialize (Hq ltac:(lia) ltac:(lia) ltac:(nia)).
  pose proof one_le_max_float.
  rewrite (proj2 (Z.leb_le _ _)) by lia. eauto.
Qed.

(** [round(x, 2)] keeps [[0, 1]], and yields the double nearest to a
    whole number of hundredths between 0 and 100. *)
Lemma hundredths_unit x : 0 <= x <= one -> 0 <= hundredths x <= 100.
Proof.
  intros Hx. unfold hundredths, one in *.
  assert (0 < 2 ^ 1074) as Hu by (by apply Z.pow_pos_nonneg).
  change (2 ^ 1075) with (2 * 2 ^ 1074).
  set (u := 2 ^ 1074) in *.
  assert (0 <= (Z.abs x * 200 + u) / (2 * u) <= 100).
  { rewrite Z.abs_eq by lia. split.
    - apply Z.div_pos; lia.
    - apply Z.lt_succ_r, Z.div_lt_upper_bound; lia. }
  destruct (Z.eq_dec x 0) as [->|Hne]; [simpl; lia |].
  rewrite Z.sgn_pos by lia. lia.
Qed.

Lemma round2_unit x : 0 <= x <= one -> 0 <= round2 x <= one.
Proof.
  intros Hx. pose proof (hundredths_unit x Hx). unfold round2.
  assert (0 < 2 ^ 1074) as Hu by (by apply Z.pow_pos_nonneg).
  apply nearest_le_one; unfold one; nia.
Qed.

(** ** The error of the roundings *)

Lemma rne_exact q d : 0 < d -> rne (q * d) d = q.
Proof.
  intros Hd. unfold rne. rewrite Z.div_mul, Z.mod_mul by lia.
  by rewrite (proj2 (Z.ltb_lt _ _)) by lia.
Qed.

(** Rounding to the nearest integer is off by half a unit at most. *)
Lemma rne_error n d : 0 < d -> 2 * Z.abs (rne n d * d - n) <= d.
Proof.
  intros Hd. unfold rne.
  pose proof (Z.div_mod n d ltac:(lia)) as M.
  pose proof (Z.mod_pos_bound n d Hd) as B.
  set (q := n / d) in *. set (r := n mod d) in *.
  destruct (Z.ltb_spec (2 * r) d), (Z.ltb_spec d (2 * r)), (Z.even q); lia.
Qed.

(** From [2^52] units on, rounding to a double is off by one part in
    [2^53] at most. *)
Lemma round53_error n d :
  0 < d -> 2 ^ 52 * d <= n ->
  Z.abs (round53 n d * d - n) * 2 ^ 53 <= n.
Proof.
  intros Hd Hn. unfold round53.
  assert (2 ^ 52 <= n / d) as Hq by (apply Z.div_le_lower_bound; lia).
  pose proof (Z.log2_le_mono _ _ Hq) as Hl. rewrite Z.log2_pow2 in Hl by lia.
  rewrite Z.max_r by lia.
  set (k := Z.log2 (n / d) - 52) in *.
  assert (0 <= k) as Hk by lia.
  assert (0 < 2 ^ k) as Hp by (apply Z.pow_pos_nonneg; lia).
  pose proof (Z.log2_spec (n / d) ltac:(lia)) as [Hlo _].
  replace (Z.log2 (n / d)) with (52 + k) in Hlo by lia.
  rewrite Z.pow_add_r in Hlo by lia.
  pose proof (Z.mul_div_le n d Hd) as Hfloor.
  pose proof (rne_error n (d * 2 ^ k) ltac:(nia)) as He.
  replace (rne n (d * 2 ^ k) * 2 ^ k * d) with (rne n (d * 2 ^ k) * (d * 2 ^ k)) by lia.
  set (e := Z.abs _) in *.
  change (2 ^ 53) with (2 * 2 ^ 52).
  assert (d * 2 ^ k * 2 ^ 52 <= n) by nia.
  nia.
Qed.

(** A double holds every int from 0 up to [2^53] exactly. *)
Lemma round53_exact_int n :
  0 <= n < exact_int_bound -> round53 (n * one) 1 = n * one.
Proof.
  intros Hn. destruct (Z.eq_dec n 0) as [->|Hne]; [by apply round53_zero |].
  unfold round53. rewrite Z.div_1_r, Z.mul_1_l.
  pose proof (Z.log2_spec n ltac:(lia)) as [Hlo Hhi].
  assert (Z.log2 n <= 52) as Hl.
  { apply Z.lt_succ_r, (Z.pow_lt_mono_r_iff 2); [lia | lia |].
    unfold exact_int_bound in Hn. change (Z.succ 52) with 53. lia. }
  pose proof (Z.log2_nonneg n) as Hl0.
  assert (Z.log2 (n * one) = Z.log2 n + 1074) as ->
    by (unfold one; rewrite Z.log2_mul_pow2; lia).
  rewrite Z.max_r by lia.
  set (k := Z.log2 n + 1074 - 52).
  assert (one = 2 ^ (52 - Z.log2 n) * 2 ^ k) as Hone.
  { unfold one, k. rewrite <- Z.pow_add_r by lia. f_equal. lia. }
  assert (0 < 2 ^ k) by (apply Z.pow_pos_nonneg; lia).
  rewrite Hone at 1. rewrite Z.mul_assoc, rne_exact by lia.
  rewrite Hone. lia.
Qed.

Lemma float_of_int_exact n :
  0 <= n < exact_int_bound -> float_of_int n = Ok (n * one).
Proof.
  intros Hn. unfold float_of_int. fold one. pose proof one_pos.
  rewrite nearest_nonneg, round53_exact_int by (done || lia).
  rewrite (proj2 (Z.leb_le _ _)); [done |].
  rewrite Z.abs_eq by lia.
  unfold exact_int_bound in Hn.
  transitivity (2 ^ 53 * one); [apply Z.mul_le_mono_nonneg_r; lia | by vm_compute].
Qed.

(** [round(x, 2)] takes the hundredths nearest to [x]: off by half a
    hundredth at most. *)
Lemma hundredths_error x :
  0 <= x -> 0 <= hundredths x /\ Z.abs (2 * one * hundredths x - 200 * x) <= one.
Proof.
  intros Hx. unfold hundredths. fold one.
  change (2 ^ 1075) with (2 * one). pose proof one_pos as Hu.
  destruct (Z.eq_dec x 0) as [->|Hne].
  - change (Z.sgn 0) with 0. lia.
  - rewrite Z.sgn_pos, Z.abs_eq, Z.mul_1_l by lia.
    pose proof (Z.div_mod (x * 200 + one) (2 * one) ltac:(lia)) as M.
    pose proof (Z.mod_pos_bound (x * 200 + one) (2 * one) ltac:(lia)) as B.
    pose proof (Z.div_pos (x * 200 + one) (2 * one) ltac:(lia) ltac:(lia)).
    set (h := (x * 200 + one) / (2 * one)) in *. lia.
Qed.

(** [int] reads what follows a sign after dropping blanks, as Python 2
    does. *)
Example int_of_str_sample :
  int_of_str " 42 " = Ok 42 /\ int_of_str "+ 5" = Ok 5
  /\ int_of_str "- 5" = Ok (-5) /\ int_of_str "-7" = Ok (-7)
  /\ int_of_str "+" = Raise ValueError /\ int_of_str "5 5" = Raise ValueError
  /\ int_of_str "+ -5" = Raise ValueError /\ int_of_str "" = Raise ValueError.
Proof. by vm_compute. Qed.

(** ** [sorted] *)

Section SortingFacts.
Context {A : Type} (key : A -> float).

Local Abbreviation key_le := (key_le key).

Lemma insert_perm (x : A) (l : list A) : insert key x l ≡ₚ x :: l.
Proof.
  induction l as [|y l IH]; simpl; [done |].
  destruct (Z.leb_spec (key x) (key y)); [done |].
  rewrite IH. apply Permutation_swap.
Qed.

Lemma sorted_perm (l : list A) : sorted key l ≡ₚ l.
Proof.
  induction l as [|x l IH]; simpl; [done |].
  by rewrite insert_perm, IH.
Qed.

Lemma insert_sorted (x : A) (l : list A) :
  StronglySorted key_le l -> StronglySorted key_le (insert key x l).
Proof.
  induction 1 as [|y l Hs IH Hy]; simpl.
  - repeat constructor.
  - destruct (Z.leb_spec (key x) (key y)) as [Hxy|Hyx].
    + constructor; [by constructor |].
      constructor; [done |].
      eapply Forall_impl; [exact Hy |]. unfold key_le. intros; lia.
    + constructor; [done |].
      rewrite insert_perm. constructor; [unfold key_le; lia | done].
Qed.

Lemma sorted_sorted (l : list A) : StronglySorted key_le (sorted key l).
Proof.
  induction l as [|x l IH]; simpl; [constructor | by apply insert_sorted].
Qed.

(** Elements of one key value come out in the order they went in. *)
Lemma insert_stable (k : float) (x : A) (l : list A) :
  filter (fun a => key a = k) (insert key x l)
  = filter (fun a => key a = k) (x :: l).
Proof.
  induction l as [|y l IH]; simpl; [done |].
  destruct (Z.leb_spec (key x) (key y)) as [Hxy|Hyx]; [done |].
  rewrite (filter_cons _ y (insert key x l)), IH, !filter_cons.
  repeat case_decide; try done; lia.
Qed.

Lemma sorted_stable (k : float) (l : list A) :
  filter (fun a => key a = k) (sorted key l) = filter (fun a => key a = k) l.
Proof.
  induction l as [|x l IH]; simpl; [done |].
  by rewrite insert_stable, !filter_cons, IH.
Qed.
End SortingFacts.

End PyFacts.

(* ================================================================== *)
(** * Properties of sort-duplicates.py *)
(* ================================================================== *)

Module SortDupFacts.
Import Py Py.Notations SortDup Spec PyFacts.

(** ** First-seen order *)

Section FirstSeen.
Context {K : Type} `{EqDecision K}.
Implicit Types (k : K) (l : list K).

Lemma first_seen_elem k l : k ∈ first_seen l <-> k ∈ l.
Proof.
  induction l as [|a l IH]; simpl; [done |].
  rewrite !elem_of_cons, list_elem_of_filter, IH.
  split; [intros [?|[? ?]]; auto |].
  intros [?|?]; [auto | destruct (decide (k = a)); auto].
Qed.

Lemma first_seen_NoDup l : NoDup (first_seen l).
Proof.
  induction l as [|a l IH]; simpl; [constructor |].
  constructor; [| by apply NoDup_filter].
  rewrite list_elem_of_filter. intros [Hne _]. by apply Hne.
Qed.

Lemma first_seen_snoc l k :
  first_seen (l ++ [k])
  = if decide (k ∈ l) then first_seen l else first_seen l ++ [k].
Proof.
  induction l as [|a l IH].
  - reflexivity.
  - cbn [first_seen app]. rewrite IH.
    destruct (decide (k ∈ l)) as [Hin|Hnin].
    + rewrite decide_True; [done | by apply elem_of_cons; right].
    + rewrite filter_app, filter_cons, filter_nil.
      destruct (decide (k = a)) as [->|Hne].
      * rewrite (decide_False (P := a <> a)) by (intros H; by apply H).
        rewrite (decide_True (P := a ∈ a :: l))
          by (apply elem_of_cons; by left).
        by rewrite app_nil_r.
      * rewrite (decide_True (P := k <> a)) by done.
        rewrite (decide_False (P := k ∈ a :: l)); [done |].
        by intros [?|?]%elem_of_cons.
Qed.
End FirstSeen.

Lemma total_lines_snoc k recs c :
  total_lines k (recs ++ [c])
  = total_lines k recs + (if decide (clone_key c = k) then lines c else 0).
Proof. induction recs as [|a recs IH]; simpl; [lia | rewrite IH; lia]. Qed.

(** ** The inner loop *)

(** With distinct keys in the list and every count readable, the scan
    either finds no entry with the two paths, or adds the new size to
    the one entry that has them and leaves the others alone. *)
Lemma add_to_existing_spec (f : string * string -> Z) acc p1 p2 s n :
  NoDup (pair_key <$> acc) ->
  Forall (fun e => int (pair0 e) = Ok (f (pair_key e))) acc ->
  int_of_str s = Ok n ->
  match add_to_existing acc p1 p2 s with
  | Ok None => (p1, p2) ∉ pair_key <$> acc
  | Ok (Some acc') =>
      (p1, p2) ∈ pair_key <$> acc
      /\ pair_key <$> acc' = pair_key <$> acc
      /\ Forall (fun e => int (pair0 e)
                 = Ok (f (pair_key e)
                       + (if decide ((p1, p2) = pair_key e) then n else 0))) acc'
  | Raise _ => False
  end.
Proof.
  intros Hnd Hall Hs. induction acc as [|e acc IH]; simpl.
  - apply not_elem_of_nil.
  - apply NoDup_cons in Hnd as [Hnotin Hnd].
    apply Forall_cons in Hall as [He Hall].
    specialize (IH Hnd Hall).
    destruct (bool_decide (pair1 e = p1) && bool_decide (pair2 e = p2)) eqn:Hb.
    + apply andb_true_iff in Hb as [H1%bool_decide_eq_true H2%bool_decide_eq_true].
      assert (pair_key e = (p1, p2)) as Hk by (unfold pair_key; congruence).
      rewrite He. simpl. rewrite Hs. simpl.
      split; [rewrite <- Hk; by apply elem_of_cons; left |]. split; [done |].
      constructor.
      * simpl. unfold pair_key at 2. simpl. fold (pair_key e).
        by rewrite decide_True.
      * apply Forall_forall. intros e' Hin.
        rewrite Forall_forall in Hall. rewrite (Hall e' Hin).
        rewrite decide_False; [f_equal; lia |].
        intros Heq. apply Hnotin. rewrite Hk, Heq.
        apply list_elem_of_fmap. by exists e'.
    + assert (pair_key e <> (p1, p2)) as Hk.
      { intros [=H1 H2]. rewrite !bool_decide_eq_true_2 in Hb by done. done. }
      destruct (add_to_existing acc p1 p2 s) as [[acc'|]|err]; simpl; [| |done].
      * destruct IH as (Hin & Hkeys & Hvals).
        split; [by apply elem_of_cons; right |]. split; [by f_equal |].
        constructor; [| done].
        rewrite He, decide_False by done. f_equal; lia.
      * intros [Heq|Hin]%elem_of_cons; [by apply Hk | by apply IH].
Qed.

Lemma total_lines_absent k recs :
  k ∉ clone_key <$> recs -> total_lines k recs = 0.
Proof.
  induction recs as [|c recs IH]; [done |].
  rewrite fmap_cons, not_elem_of_cons. intros [Hne Hnotin].
  cbn [total_lines]. rewrite decide_False by done. rewrite IH by done. lia.
Qed.

(** ** The outer loop *)

(** One pass of the loop body keeps [aggregates], and the loop ends. *)
Lemma total_duplication_loop_spec filepairs recs :
  Forall2 carries filepairs recs ->
  forall acc seen,
    aggregates acc seen ->
    exists out,
      total_duplication_loop filepairs acc = Ok out
      /\ aggregates out (seen ++ recs).
Proof.
  induction 1 as [|filepair c filepairs recs (s & Hread & Hint) _ IH];
    intros acc seen [Hkeys Hvals].
  - exists acc. by rewrite app_nil_r.
  - cbn [total_duplication_loop]. rewrite Hread. cbn [bind].
    pose proof (add_to_existing_spec (fun k => total_lines k seen)
                  acc (path_1 c) (path_2 c) s (lines c)) as Hadd.
    assert (NoDup (pair_key <$> acc)) as Hnd
      by (rewrite Hkeys; apply first_seen_NoDup).
    specialize (Hadd Hnd Hvals Hint).
    assert (forall k, k ∈ pair_key <$> acc <-> k ∈ clone_key <$> seen) as Hmem
      by (intros k; by rewrite Hkeys, first_seen_elem).
    replace (seen ++ c :: recs) with ((seen ++ [c]) ++ recs)
      by (by rewrite <- app_assoc).
    destruct (add_to_existing acc (path_1 c) (path_2 c) s)
      as [[acc'|]|err]; cbn [bind]; [| | done].
    + destruct Hadd as (Hin & Hkeys' & Hvals').
      apply IH. split.
      * rewrite Hkeys', Hkeys, fmap_app.
        change (clone_key <$> [c]) with [clone_key c].
        rewrite first_seen_snoc.
        by rewrite decide_True by (by apply Hmem).
      * eapply Forall_impl; [exact Hvals' |]. intros e He.
        by rewrite total_lines_snoc.
    + apply IH. split.
      * rewrite !fmap_app, Hkeys.
        change (clone_key <$> [c]) with [clone_key c].
        rewrite first_seen_snoc.
        by rewrite decide_False by (by rewrite <- Hmem).
      * apply Forall_app. split.
        -- apply Forall_forall. intros e Hin.
           rewrite Forall_forall in Hvals. rewrite (Hvals e Hin).
           rewrite total_lines_snoc, decide_False; [f_equal; lia |].
           intros Heq. apply Hadd.
           change (clone_key c) with (path_1 c, path_2 c) in Heq.
           rewrite Heq. apply list_elem_of_fmap. by exists e.
        -- constructor; [| constructor]. cbn [pair0 int].
           rewrite Hint, total_lines_snoc. unfold pair_key. cbn [pair1 pair2].
           rewrite total_lines_absent by (by rewrite <- Hmem).
           rewrite decide_True by done. f_equal; lia.
Qed.

Lemma total_duplication_spec xml_root recs :
  Forall2 carries (_children xml_root) recs ->
  exists out, total_duplication xml_root = Ok out /\ aggregates out recs.
Proof.
  intros H. unfold total_duplication.
  by apply (total_duplication_loop_spec _ _ H [] []).
Qed.

(** Where an element of [first_seen l] sits: at the rank of the first
    occurrence of its value. *)
Lemma first_seen_lookup {K} `{EqDecision K} (l : list K) (N : nat) (k : K) :
  first_seen l !! N = Some k ->
  exists i,
    l !! i = Some k
    /\ (forall j, (j < i)%nat -> l !! j <> Some k)
    /\ N = length (first_seen (take i l)).
Proof.
  revert N. induction l as [|a l IH] using rev_ind; intros N; [done |].
  rewrite first_seen_snoc.
  assert (forall i, l !! i = Some k ->
            (forall j, (j < i)%nat -> l !! j <> Some k) ->
            N = length (first_seen (take i l)) ->
            exists i, (l ++ [a]) !! i = Some k
              /\ (forall j, (j < i)%nat -> (l ++ [a]) !! j <> Some k)
              /\ N = length (first_seen (take i (l ++ [a])))) as Hold.
  { intros i Hi Hfirst HN. exists i.
    pose proof (lookup_lt_Some _ _ _ Hi) as Hlt.
    split; [by apply lookup_app_l_Some |]. split.
    - intros j Hj. rewrite lookup_app_l by lia. by apply Hfirst.
    - by rewrite take_app_le by lia. }
  destruct (decide (a ∈ l)) as [Hin|Hnotin].
  - intros (i & Hi & Hfirst & HN)%IH. by apply (Hold i).
  - intros [HN|[HN Hk]]%lookup_app_Some.
    + apply IH in HN as (i & Hi & Hfirst & HN). by apply (Hold i).
    + destruct (N - length (first_seen l))%nat as [|m] eqn:Hm; [| done].
      simplify_eq/=. exists (length l).
      split; [by rewrite list_lookup_middle |]. split.
      * intros j Hj. rewrite lookup_app_l by lia.
        intros Hj'. apply Hnotin. by eapply list_elem_of_lookup_2.
      * rewrite take_app_le, firstn_all by lia. lia.
Qed.

(** ** The Pair Aggregator *)

(** C1.  For every sequence of Clone Records carried by the children of
    the report's root, total_duplication returns a list in which every
    ordered pair of paths of the records occurs exactly once (the keys
    of the list are without repetition and are those of the records),
    and the count of an entry reads as the sum of [lines] over exactly
    the records of its ordered pair; a record with the two paths swapped
    has another key and adds to another entry. *)
Theorem total_duplication_sums xml_root recs :
  Forall2 carries (_children xml_root) recs ->
  exists out,
    total_duplication xml_root = Ok out
    /\ NoDup (pair_key <$> out)
    /\ (forall k, k ∈ pair_key <$> out <-> k ∈ clone_key <$> recs)
    /\ Forall (fun e => int (pair0 e) = Ok (total_lines (pair_key e) recs)) out.
Proof.
  intros (out & Hrun & Hkeys & Hvals)%total_duplication_spec.
  exists out. split; [done |]. split; [| split; [| done]].
  - rewrite Hkeys. apply first_seen_NoDup.
  - intros k. by rewrite Hkeys, first_seen_elem.
Qed.

Lemma total_duplication_sums_witness :
  Forall2 carries (_children Samples.report) Samples.report_clones
  /\ exists out,
       total_duplication Samples.report = Ok out
       /\ NoDup (pair_key <$> out)
       /\ (forall k, k ∈ pair_key <$> out <-> k ∈ clone_key <$> Samples.report_clones)
       /\ Forall (fun e => int (pair0 e)
                  = Ok (total_lines (pair_key e) Samples.report_clones)) out.
Proof.
  split.
  - repeat constructor; eexists; split; reflexivity.
  - apply (total_duplication_sums Samples.report Samples.report_clones).
    repeat constructor; eexists; split; reflexivity.
Defined.

(** The two records for (A, B) are summed; the one for (B, A) stays
    apart, its count still the string read from the report. *)
Example total_duplication_sample :
  total_duplication Samples.report
  = Ok [Pair (PInt 80) "A" "B"; Pair (PStr "7") "B" "A"].
Proof. reflexivity. Qed.

(** C6.  The keys of the output of total_duplication are the distinct
    ordered pairs of the records in the order in which they are first
    seen: the N-th entry has the pair of the first record that
    introduces it, and N distinct pairs occur before that record. *)
Theorem total_duplication_first_seen_order xml_root recs :
  Forall2 carries (_children xml_root) recs ->
  exists out,
    total_duplication xml_root = Ok out
    /\ pair_key <$> out = first_seen (clone_key <$> recs)
    /\ forall N e,
         out !! N = Some e ->
         exists i c,
           recs !! i = Some c
           /\ clone_key c = pair_key e
           /\ (forall j c', (j < i)%nat -> recs !! j = Some c' ->
                            clone_key c' <> pair_key e)
           /\ N = length (first_seen (clone_key <$> take i recs)).
Proof.
  intros (out & Hrun & Hkeys & _)%total_duplication_spec.
  exists out. split; [done |]. split; [done |].
  intros N e HN.
  assert (first_seen (clone_key <$> recs) !! N = Some (pair_key e)) as Hk
    by (by rewrite <- Hkeys, list_lookup_fmap, HN).
  apply first_seen_lookup in Hk as (i & Hi & Hfirst & Hlen).
  rewrite list_lookup_fmap in Hi.
  destruct (recs !! i) as [c|] eqn:Hc; [| done].
  assert (clone_key c = pair_key e) as Hce by (simpl in Hi; congruence).
  exists i, c. split; [done |]. split; [done |]. split.
  - intros j c' Hj Hc' Heq. apply (Hfirst j Hj).
    by rewrite list_lookup_fmap, Hc', <- Heq.
  - by rewrite fmap_take.
Qed.

Lemma total_duplication_first_seen_order_witness :
  Forall2 carries (_children Samples.report) Samples.report_clones
  /\ exists out,
       total_duplication Samples.report = Ok out
       /\ pair_key <$> out = first_seen (clone_key <$> Samples.report_clones)
       /\ forall N e,
            out !! N = Some e ->
            exists i c,
              Samples.report_clones !! i = Some c
              /\ clone_key c = pair_key e
              /\ (forall j c', (j < i)%nat -> Samples.report_clones !! j = Some c' ->
                               clone_key c' <> pair_key e)
              /\ N = length (first_seen (clone_key <$> take i Samples.report_clones)).
Proof.
  split.
  - repeat constructor; eexists; split; reflexivity.
  - apply (total_duplication_first_seen_order Samples.report Samples.report_clones).
    repeat constructor; eexists; split; reflexivity.
Defined.

(** ** The Sorter *)

(** C4.  sort_files returns a permutation of its argument, in
    non-decreasing order of the first percentage, and for every value of
    that percentage the entries having it come out in the order they
    had in the argument. *)
Theorem sort_files_stable (percent_array : list scored) :
  sort_files percent_array ≡ₚ percent_array
  /\ StronglySorted (key_le duped0) (sort_files percent_array)
  /\ forall k : float,
       filter (fun d => duped0 d = k) (sort_files percent_array)
       = filter (fun d => duped0 d = k) percent_array.
Proof.
  unfold sort_files. split; [apply sorted_perm |].
  split; [apply sorted_sorted |]. intros k. apply sorted_stable.
Qed.

(** ** The Percentage Calculator *)

(** The expression of the source returns whenever the count and the
    size fit a float and the size is positive. *)
Lemma percent_ok dupe size :
  Z.abs dupe < float_int_bound -> 1 <= size < float_int_bound ->
  exists p, percent dupe size = Ok p.
Proof.
  intros Hd Hs. unfold percent.
  destruct (float_of_int_ok dupe Hd) as (a & -> & Ha).
  destruct (float_of_int_ok size ltac:(lia)) as (b & Hb & _).
  rewrite Hb. cbn [bind].
  pose proof (float_of_int_ge_one _ _ (proj1 Hs) Hb).
  destruct (fdiv_int_divisor_finite a b Ha ltac:(lia)) as (q & ->).
  cbn [bind]. eauto.
Qed.

(** At most the whole file duplicated: a percentage between 0 and 1. *)
Lemma percent_unit dupe size p :
  0 <= dupe <= size -> 1 <= size -> percent dupe size = Ok p ->
  unit_percentage p.
Proof.
  unfold percent. intros Hd Hs Hp.
  destruct (float_of_int dupe) as [a|] eqn:Ha; [| done].
  destruct (float_of_int size) as [b|] eqn:Hb; [| done].
  cbn [bind] in Hp.
  pose proof (float_of_int_mono _ _ _ _ Hd Ha Hb) as Hab.
  pose proof (float_of_int_ge_one _ _ Hs Hb) as H1. pose proof one_pos.
  destruct (fdiv_le_one a b Hab ltac:(lia)) as (q & Hq & Hq1).
  rewrite Hq in Hp. injection Hp as <-. split.
  - by apply round2_unit.
  - exists (hundredths q). split; [by apply hundredths_unit | done].
Qed.

(** With a positive size the division never meets a zero divisor. *)
Lemma percent_no_zero_division dupe size :
  1 <= size -> percent dupe size <> Raise ZeroDivisionError.
Proof.
  intros Hs. unfold percent.
  destruct (float_of_int dupe) as [a|] eqn:Ha; cbn [bind];
    [| unfold float_of_int in Ha; case_match; congruence].
  destruct (float_of_int size) as [b|] eqn:Hb; cbn [bind];
    [| unfold float_of_int in Hb; case_match; congruence].
  pose proof (float_of_int_nonzero _ _ Hb ltac:(lia)) as Hne.
  unfold fdiv. rewrite (proj2 (Z.eqb_neq b 0)) by done.
  by case_match.
Qed.

(** What the expression of the source returns is the rounded ratio. *)
Lemma percent_rounded_ratio dupe size p :
  percent dupe size = Ok p -> rounded_ratio dupe size p.
Proof.
  unfold percent. intros Hp.
  destruct (float_of_int dupe) as [a|] eqn:Ha; [| done].
  destruct (float_of_int size) as [b|] eqn:Hb; [| done].
  cbn [bind] in Hp.
  destruct (fdiv a b) as [q|] eqn:Hq; [| done].
  injection Hp as <-. by exists a, b, q.
Qed.

(** On ints that a double holds exactly the only errors are those of
    the division and of the rounding to two decimals. *)
Lemma percent_two_decimals dupe size p :
  0 <= dupe < exact_int_bound -> 1 <= size < exact_int_bound ->
  percent dupe size = Ok p -> two_decimals dupe size p.
Proof.
  intros Hd Hs. unfold percent.
  rewrite (float_of_int_exact dupe Hd), (float_of_int_exact size) by lia.
  cbn [bind]. unfold fdiv. pose proof one_pos as Hu.
  rewrite (proj2 (Z.eqb_neq (size * one) 0)) by nia.
  rewrite Z.sgn_pos, Z.mul_1_r, (Z.abs_eq (size * one)) by nia. fold one.
  destruct (_ <=? _); [| done]. cbn [bind]. intros [= <-].
  rewrite nearest_nonneg by nia.
  pose proof (round53_nonneg (dupe * one * one) (size * one)
                ltac:(nia) ltac:(nia)) as Hq0.
  set (q := round53 (dupe * one * one) (size * one)) in *.
  assert (Z.abs (q * size - dupe * one) * 2 ^ 53 <= dupe * one) as Hq.
  { destruct (Z.eq_dec dupe 0) as [->|Hne].
    - subst q. change (0 * one * one) with 0. rewrite round53_zero by nia. lia.
    - pose proof (round53_error (dupe * one * one) (size * one) ltac:(nia)) as He.
      fold q in He.
      assert (2 ^ 52 * (size * one) <= dupe * one * one) as Hbig.
      { unfold exact_int_bound in Hs.
        assert (2 ^ 52 * size <= one) as Hso.
        { transitivity (2 ^ 52 * 2 ^ 53); [lia | by vm_compute]. }
        assert (one <= dupe * one) by nia.
        transitivity (one * one); [nia |]. apply Z.mul_le_mono_nonneg_r; lia. }
      specialize (He Hbig).
      replace (q * (size * one) - dupe * one * one)
        with ((q * size - dupe * one) * one) in He by lia.
      rewrite Z.abs_mul, (Z.abs_eq one) in He by lia.
      set (e := Z.abs (q * size - dupe * one)) in *.
      assert (e * 2 ^ 53 * one <= dupe * one * one) by lia.
      apply (Z.mul_le_mono_pos_r _ _ one); lia. }
  destruct (hundredths_error q Hq0) as [Hh0 Hh].
  exists (hundredths q). split; [done |].
  set (h := hundredths q) in *.
  apply (Z.mul_le_mono_pos_r _ _ (2 * one)); [lia |].
  replace (Z.abs (h * size - 100 * dupe) * 2 ^ 53 * (2 * one))
    with (Z.abs ((2 * one * h - 200 * q) * size + 200 * (q * size - dupe * one))
          * 2 ^ 53).
  2:{ replace ((2 * one * h - 200 * q) * size + 200 * (q * size - dupe * one))
        with ((h * size - 100 * dupe) * (2 * one)) by lia.
      rewrite Z.abs_mul, (Z.abs_eq (2 * one)) by lia. lia. }
  pose proof (Z.abs_triangle ((2 * one * h - 200 * q) * size)
                (200 * (q * size - dupe * one))) as Ht.
  rewrite !Z.abs_mul in Ht. rewrite (Z.abs_eq size), (Z.abs_eq 200) in Ht by lia.
  set (e1 := Z.abs (2 * one * h - 200 * q)) in *.
  set (e2 := Z.abs (q * size - dupe * one)) in *.
  set (e := Z.abs _) in *.
  change (2 ^ 52) with 4503599627370496.
  change (2 ^ 53) with 9007199254740992 in *.
  nia.
Qed.

Lemma percentage_loop_spec size_array :
  Forall well_sized size_array ->
  exists out, percentage_loop size_array = Ok out /\ Forall2 scores size_array out.
Proof.
  induction 1 as [|arr size_array (dupe & Hint & Hd & H1 & H3) _ (out & IH & Hout)].
  - by exists [].
  - cbn [percentage_loop]. rewrite Hint. cbn [bind].
    destruct (percent_ok dupe (arr1 arr) ltac:(lia) H1) as (p1 & Hp1).
    destruct (percent_ok dupe (arr3 arr) ltac:(lia) H3) as (p2 & Hp2).
    rewrite Hp1, Hp2, IH. cbn [bind].
    eexists. split; [done |]. constructor; [| done].
    exists dupe. cbn. split_and!; try done.
    + by apply percent_rounded_ratio.
    + by apply percent_rounded_ratio.
    + intros Hle. apply (percent_unit dupe (arr1 arr)); [lia | lia | done].
    + intros Hle. apply (percent_unit dupe (arr3 arr)); [lia | lia | done].
    + intros Hx1 Hx2. apply (percent_two_decimals dupe (arr1 arr)); [lia | lia | done].
    + intros Hx1 Hx2. apply (percent_two_decimals dupe (arr3 arr)); [lia | lia | done].
Qed.

(** C5.  For every list of Sized Pairs, percentage_duplicated returns
    one Scored Pair per Sized Pair, in order.  Each of its two
    percentages is [round(float(dupe)/float(size), 2)] for the size of
    its own file: [float] of the count and of that size, the quotient of
    the two floats, rounded to two decimals.  A percentage whose count
    does not exceed the size is a double between 0.0 and 1.0, nearest to
    a whole number of hundredths.  For a count and a size below [2^53]
    the percentage is the double nearest to [h / 100], where [h / 100]
    is off the exact ratio of count to size by half a hundredth at
    most, but for the rounding of the quotient (one part in [2^53] of
    the ratio).  And the result is the only one for that input. *)
Theorem percentage_duplicated_scores size_array :
  Forall well_sized size_array ->
  exists out,
    percentage_duplicated (Some size_array) = Ok out
    /\ Forall2 scores size_array out
    /\ forall out', percentage_duplicated (Some size_array) = Ok out' -> out' = out.
Proof.
  intros (out & Hrun & Hout)%percentage_loop_spec.
  exists out. cbn [percentage_duplicated]. split; [done |]. split; [done |].
  intros out' Hrun'. congruence.
Qed.

Lemma percentage_duplicated_scores_witness :
  Forall well_sized [Sized (PInt 80) 200 "A" 400 "B"]
  /\ percentage_duplicated (Some [Sized (PInt 80) 200 "A" 400 "B"])
     = Ok [Scored (nearest (40 * 2 ^ 1074) 100) "A"
                  (nearest (20 * 2 ^ 1074) 100) "B" (PInt 80)]
  /\ exists out,
       percentage_duplicated (Some [Sized (PInt 80) 200 "A" 400 "B"]) = Ok out
       /\ Forall2 scores [Sized (PInt 80) 200 "A" 400 "B"] out
       /\ forall out',
            percentage_duplicated (Some [Sized (PInt 80) 200 "A" 400 "B"]) = Ok out'
            -> out' = out.
Proof.
  assert (Forall well_sized [Sized (PInt 80) 200 "A" 400 "B"]) as H.
  { constructor; [| constructor]. exists 80. repeat split; by vm_compute. }
  split; [exact H |]. split; [by vm_compute |].
  exact (percentage_duplicated_scores [Sized (PInt 80) 200 "A" 400 "B"] H).
Defined.

(** 80 duplicated lines in files of 200 and 400 lines: 0.40 and 0.20. *)
Example percent_sample :
  percent 80 200 = Ok (nearest (40 * 2 ^ 1074) 100)
  /\ percent 80 400 = Ok (nearest (20 * 2 ^ 1074) 100).
Proof. by vm_compute. Qed.

(** 30 lines of 400 are 0.075 of the file; the float quotient lies just
    below that, and the percentage is 0.07: half a hundredth off the
    ratio, the most [two_decimals] allows. *)
Example percent_tie_sample :
  percent 30 400 = Ok (nearest (7 * 2 ^ 1074) 100)
  /\ Z.abs (7 * 400 - 100 * 30) * 2 ^ 53 <= 400 * 2 ^ 52 + 100 * 30.
Proof. by vm_compute. Qed.

(** ** The File Size Resolver *)

(** After the loop [i] is the last index, or still not bound. *)
Lemma last_index {A} (f : list A) :
  foldl (fun _ il => Some (fst il)) None (enumerate f)
  = if f is [] then None else Some (Nat.pred (length f)).
Proof.
  unfold enumerate. induction f as [|l f _] using rev_ind; [done |].
  rewrite imap_app, foldl_app. cbn. rewrite Nat.add_0_r, length_app. cbn.
  destruct f; cbn; f_equal; lia.
Qed.

Lemma file_len_lines open_file fname (f : list string) :
  open_file fname = Ok f -> f <> [] ->
  file_len open_file fname = Ok (Z.of_nat (length f)).
Proof.
  intros Hf Hne. unfold file_len. rewrite Hf. cbn [bind].
  rewrite last_index. destruct f as [|l f]; [done |]. cbn. f_equal. lia.
Qed.

Lemma file_len_empty open_file fname :
  open_file fname = Ok [] -> file_len open_file fname = Raise UnboundLocalError.
Proof. intros Hf. unfold file_len. by rewrite Hf. Qed.

Lemma file_len_positive open_file fname n :
  file_len open_file fname = Ok n -> 1 <= n.
Proof.
  unfold file_len. destruct (open_file fname) as [f|]; [| done]. cbn [bind].
  destruct (foldl _ _ _); [| done]. intros [= <-]. lia.
Qed.

Lemma find_filesizes_loop_sizes argv open_file filelist acc out sizes :
  Forall (fun arr => 1 <= arr1 arr /\ 1 <= arr3 arr) acc ->
  find_filesizes_loop argv open_file filelist acc = (out, Ok (Some sizes)) ->
  Forall (fun arr => 1 <= arr1 arr /\ 1 <= arr3 arr) sizes.
Proof.
  revert acc. induction filelist as [|filepair rest IH]; intros acc Hacc;
    cbn [find_filesizes_loop].
  - by intros [= _ <-].
  - destruct (index argv 2) as [root|e]; cbn [bind];
      [| destruct e; intros [=]].
    destruct (file_len open_file (root +:+ pair1 filepair)) as [n1|e] eqn:H1;
      cbn [bind]; [| destruct e; intros [=]].
    destruct (file_len open_file (root +:+ pair2 filepair)) as [n2|e] eqn:H2;
      cbn [bind]; [| destruct e; intros [=]].
    apply IH. apply Forall_app. split; [done |].
    constructor; [| constructor]. cbn.
    split; by eapply file_len_positive.
Qed.

Lemma int_raise v e : int v = Raise e -> e = ValueError.
Proof.
  destruct v as [s|n]; [| done]. cbn [int]. unfold int_of_str.
  destruct (match strip s with EmptyString => _ | _ => _ end); cbn; congruence.
Qed.

Lemma percentage_loop_no_zero_division size_array :
  Forall (fun arr => 1 <= arr1 arr /\ 1 <= arr3 arr) size_array ->
  percentage_loop size_array <> Raise ZeroDivisionError.
Proof.
  induction 1 as [|arr size_array [H1 H3] _ IH]; [done |].
  cbn [percentage_loop].
  destruct (int (arr0 arr)) as [dupe|e] eqn:Hint; cbn [bind].
  - pose proof (percent_no_zero_division dupe _ H1) as Hp1.
    pose proof (percent_no_zero_division dupe _ H3) as Hp3.
    destruct (percent dupe (arr1 arr)); cbn [bind];
      [| intros [= ->]; by apply Hp1].
    destruct (percent dupe (arr3 arr)); cbn [bind];
      [| intros [= ->]; by apply Hp3].
    destruct (percentage_loop size_array); cbn [bind];
      [done | intros [= ->]; by apply IH].
  - apply int_raise in Hint as ->. done.
Qed.

(** C9.  file_len never returns 0: on a file of [n >= 1] lines it
    returns [n], and on a file without lines it raises, the loop
    variable not being bound; so every line count in a list returned by
    find_filesizes is at least 1, and percentage_duplicated never
    divides by zero on such a list. *)
Theorem file_len_never_zero argv open_file :
  (forall fname n, file_len open_file fname = Ok n -> 1 <= n)
  /\ (forall fname (f : list string),
        open_file fname = Ok f -> f <> [] ->
        file_len open_file fname = Ok (Z.of_nat (length f)))
  /\ (forall fname,
        open_file fname = Ok [] ->
        file_len open_file fname = Raise UnboundLocalError)
  /\ (forall filelist out sizes,
        find_filesizes argv open_file filelist = (out, Ok (Some sizes)) ->
        Forall (fun arr => 1 <= arr1 arr /\ 1 <= arr3 arr) sizes
        /\ percentage_duplicated (Some sizes) <> Raise ZeroDivisionError).
Proof.
  split_and!.
  - apply file_len_positive.
  - apply file_len_lines.
  - apply file_len_empty.
  - intros filelist out sizes Hrun.
    assert (Forall (fun arr => 1 <= arr1 arr /\ 1 <= arr3 arr) sizes) as Hs
      by (by eapply find_filesizes_loop_sizes; [constructor | exact Hrun]).
    split; [done |]. by apply percentage_loop_no_zero_division.
Qed.

Lemma file_len_never_zero_witness :
  find_filesizes Samples.argv_full Samples.tree [Pair (PInt 80) "A" "B"]
  = ([], Ok (Some [Sized (PInt 80) 200 "A" 400 "B"]))
  /\ Forall (fun arr => 1 <= arr1 arr /\ 1 <= arr3 arr)
            [Sized (PInt 80) 200 "A" 400 "B"]
  /\ percentage_duplicated (Some [Sized (PInt 80) 200 "A" 400 "B"])
     <> Raise ZeroDivisionError.
Proof.
  split; [reflexivity |].
  apply (proj2 (proj2 (proj2 (file_len_never_zero Samples.argv_full Samples.tree)))
           [Pair (PInt 80) "A" "B"] []).
  reflexivity.
Defined.

(** ** Path normalisation *)

Lemma marker_nonempty : marker <> "".
Proof. done. Qed.

Lemma chop_absent path : ~ occurs marker path -> chop path = Raise IndexError.
Proof.
  intros Hno. unfold chop. by rewrite (split_absent _ _ marker_nonempty Hno).
Qed.

Lemma chop_present path : occurs marker path -> exists p, chop path = Ok p.
Proof.
  intros Ho. unfold chop, split. change marker with "../../../" at 1.
  cbn match.
  destruct (split_go_present marker "" path Ho marker_nonempty)
    as (a & b & rest & ->).
  by exists b.
Qed.

(** With the marker occurring once, the path is cut behind it. *)
Lemma chop_single_marker pre post :
  (forall pre' post',
     pre +:+ marker +:+ post = pre' +:+ marker +:+ post' -> pre' = pre) ->
  chop (pre +:+ marker +:+ post) = Ok post.
Proof.
  intros Huniq. unfold chop, split. change marker with "../../../" at 2.
  cbn match. by rewrite (split_go_once _ _ _ marker_nonempty Huniq).
Qed.

(** C7 (the code departs from it).  A path in which the marker occurs
    twice is cut at both occurrences, and only the piece between them is
    kept: what follows the first occurrence is "b../../../c", the
    function returns "b". *)
Theorem chop_second_marker :
  chop "a../../../b../../../c" = Ok "b"
  /\ "a../../../b../../../c" = "a" +:+ marker +:+ "b../../../c"
  /\ chop "../../../../../../x" = Ok "".
Proof. by vm_compute. Qed.

(** ** The run *)

Section MainFacts.
Variable argv : list string.
Variable parse : string -> result Element.
Variable open_file : string -> result (list string).
Variable str_percent : float -> string.

Local Abbreviation main := (main argv parse open_file str_percent).

Lemma main_no_xml : argv !! 1%nat = None -> main = ([usage_xml], Ok tt).
Proof. intros H. unfold SortDup.main, index. by rewrite H. Qed.

(** An exception of the aggregation leaves [main]: the call is outside
    every [try]. *)
Lemma main_aggregation_raises xml root e :
  argv !! 1%nat = Some xml -> parse xml = Ok root ->
  total_duplication root = Raise e ->
  main = ([], Raise e).
Proof.
  intros H1 Hp Ht. unfold SortDup.main, index. rewrite H1. cbn.
  by rewrite Hp, Ht.
Qed.

Lemma find_filesizes_no_root filepair rest acc :
  argv !! 2%nat = None ->
  find_filesizes_loop argv open_file (filepair :: rest) acc
  = ([usage_root], Ok None).
Proof. intros H. cbn [find_filesizes_loop]. unfold index. by rewrite H. Qed.

Lemma main_no_root xml root p l :
  argv !! 1%nat = Some xml -> argv !! 2%nat = None ->
  parse xml = Ok root -> total_duplication root = Ok (p :: l) ->
  main = ([usage_root], Ok tt).
Proof.
  intros H1 H2 Hp Ht. unfold SortDup.main, index. rewrite H1. cbn.
  rewrite Hp, Ht. unfold find_filesizes.
  by rewrite find_filesizes_no_root.
Qed.

Lemma main_empty xml root :
  argv !! 1%nat = Some xml -> parse xml = Ok root -> _children root = [] ->
  main = ([], Ok tt).
Proof.
  intros H1 Hp Hc. unfold SortDup.main, index. rewrite H1. cbn.
  rewrite Hp. unfold total_duplication. by rewrite Hc.
Qed.
End MainFacts.

Lemma total_duplication_loop_app l1 l2 acc :
  total_duplication_loop (l1 ++ l2) acc
  = let! mid := total_duplication_loop l1 acc in total_duplication_loop l2 mid.
Proof.
  revert acc. induction l1 as [|filepair l1 IH]; intros acc; [done |].
  cbn [app total_duplication_loop].
  destruct (read_filepair filepair) as [[[p1 p2] s]|]; cbn [bind]; [| done].
  destruct (add_to_existing acc p1 p2 s) as [[acc'|]|]; cbn [bind];
    [apply IH | apply IH | done].
Qed.

Lemma read_filepair_unmarked filepair path :
  ~ occurs marker path ->
  first_path filepair path
  \/ (exists p1, first_path filepair p1 /\ occurs marker p1
                 /\ second_path filepair path) ->
  read_filepair filepair = Raise IndexError.
Proof.
  intros Hno%chop_absent H. unfold read_filepair, index, getitem.
  destruct H as [(c0 & H0 & Ha0)|(p1 & (c0 & H0 & Ha0) & Hp1 & (c1 & H1 & Ha1))];
    rewrite H0; cbn [of_option bind]; rewrite Ha0; cbn [of_option bind].
  - by rewrite Hno.
  - apply chop_present in Hp1 as (q & ->). cbn [bind].
    rewrite H1. cbn [of_option bind]. rewrite Ha1. cbn [of_option bind].
    by rewrite Hno.
Qed.

(** C2 (amended).  For every path in which the marker does not occur,
    path normalisation raises IndexError; nothing catches it: when the
    records before it are sound, the run prints nothing and ends with
    that exception leaving [main]. *)
Theorem unmarked_path_uncaught path :
  ~ occurs marker path ->
  chop path = Raise IndexError
  /\ forall argv parse open_file str_percent xml root good recs filepair rest,
       argv !! 1%nat = Some xml ->
       parse xml = Ok root ->
       _children root = good ++ filepair :: rest ->
       Forall2 carries good recs ->
       first_path filepair path
       \/ (exists p1, first_path filepair p1 /\ occurs marker p1
                      /\ second_path filepair path) ->
       main argv parse open_file str_percent = ([], Raise IndexError).
Proof.
  intros Hno. split; [by apply chop_absent |].
  intros argv parse open_file str_percent xml root good recs filepair rest
    H1 Hp Hc Hgood Hpath.
  apply (main_aggregation_raises _ _ _ _ xml root); [done | done |].
  unfold total_duplication. rewrite Hc, total_duplication_loop_app.
  destruct (total_duplication_loop_spec _ _ Hgood [] []) as (mid & -> & _);
    [done |].
  cbn [bind total_duplication_loop].
  by rewrite (read_filepair_unmarked _ _ Hno Hpath).
Qed.

Lemma unmarked_sample : ~ occurs marker "src/A.java".
Proof. rewrite <- occursb_spec. by vm_compute. Qed.

Lemma unmarked_path_uncaught_witness :
  ~ occurs marker "src/A.java"
  /\ chop "src/A.java" = Raise IndexError
  /\ main Samples.argv_full (fun _ => Ok Samples.unmarked_report)
          Samples.tree Samples.show_percent
     = ([], Raise IndexError).
Proof.
  split; [exact unmarked_sample |].
  destruct (unmarked_path_uncaught "src/A.java" unmarked_sample) as [Hchop Hmain].
  split; [exact Hchop |].
  apply (Hmain Samples.argv_full (fun _ => Ok Samples.unmarked_report)
           Samples.tree Samples.show_percent "report.xml"
           Samples.unmarked_report [] []
           (Samples.filepair_elem "src/A.java" "../../../B" "12") []);
    [reflexivity | reflexivity | reflexivity | constructor |].
  left. eexists. split; reflexivity.
Defined.

(** C2 as stated fails: the marker does not occur in "src/A.java", and
    the run on a report naming that path is not ended cleanly with a
    message; it prints nothing and an IndexError leaves [main]. *)
Lemma unmarked_path_not_reported :
  ~ occurs marker "src/A.java"
  /\ fst (main Samples.argv_full (fun _ => Ok Samples.unmarked_report)
               Samples.tree Samples.show_percent) = []
  /\ snd (main Samples.argv_full (fun _ => Ok Samples.unmarked_report)
               Samples.tree Samples.show_percent) <> Ok tt.
Proof.
  split; [rewrite <- occursb_spec; by vm_compute |]. by vm_compute.
Qed.

(** C8 (amended).  Without the XML path the run prints the first usage
    message and returns.  With the XML path and without the root path,
    the run prints the second usage message and returns, provided the
    report is read and aggregates to at least one pair. *)
Theorem main_usage argv parse open_file str_percent :
  (argv !! 1%nat = None ->
   main argv parse open_file str_percent = ([usage_xml], Ok tt))
  /\ (forall xml root p l,
        argv !! 1%nat = Some xml -> argv !! 2%nat = None ->
        parse xml = Ok root -> total_duplication root = Ok (p :: l) ->
        main argv parse open_file str_percent = ([usage_root], Ok tt)).
Proof.
  split; [apply main_no_xml |]. intros xml root p l. apply main_no_root.
Qed.

Lemma main_usage_witness :
  main Samples.argv_bare (fun _ => Ok Samples.report) Samples.tree
       Samples.show_percent
  = (["Please provide an xml file."], Ok tt)
  /\ main Samples.argv_no_root (fun _ => Ok Samples.report) Samples.tree
          Samples.show_percent
     = (["Please provide the path to 'coeci-cms-mpsp'."], Ok tt).
Proof.
  split.
  - apply (proj1 (main_usage Samples.argv_bare (fun _ => Ok Samples.report)
                    Samples.tree Samples.show_percent)).
    reflexivity.
  - apply (proj2 (main_usage Samples.argv_no_root (fun _ => Ok Samples.report)
                    Samples.tree Samples.show_percent)
             "report.xml" Samples.report
             (Pair (PInt 80) "A" "B") [Pair (PStr "7") "B" "A"]);
      reflexivity.
Defined.

(** C8 as stated fails: with the XML path given, the root path missing
    and a report without pairs, no usage message is printed. *)
Lemma main_silent_without_root :
  Samples.argv_no_root !! 1%nat = Some "report.xml"
  /\ Samples.argv_no_root !! 2%nat = None
  /\ main Samples.argv_no_root (fun _ => Ok Samples.empty_report)
          Samples.tree Samples.show_percent
     = ([], Ok tt).
Proof. by vm_compute. Qed.

(** C10.  On a report whose root has no children the run prints nothing
    and returns, whatever the command line holds after the XML path;
    find_filesizes returns the empty list on the empty list without
    reading [argv]; and the usage message for the root is printed only
    when the aggregation has produced at least one pair. *)
Theorem main_empty_report argv parse open_file str_percent :
  (forall xml root,
     argv !! 1%nat = Some xml -> parse xml = Ok root -> _children root = [] ->
     main argv parse open_file str_percent = ([], Ok tt))
  /\ find_filesizes argv open_file [] = ([], Ok (Some []))
  /\ (usage_root ∈ fst (main argv parse open_file str_percent) ->
      exists xml root p l,
        argv !! 1%nat = Some xml /\ parse xml = Ok root
        /\ total_duplication root = Ok (p :: l)).
Proof.
  split; [apply main_empty |]. split; [done |].
  unfold main, index.
  destruct (argv !! 1%nat) as [xml|]; cbn.
  2: { intros H. apply list_elem_of_singleton in H. by vm_compute in H. }
  destruct (parse xml) as [root|e] eqn:Hp.
  2: { destruct e; cbn; intros H;
       first [by apply elem_of_nil in H
             | apply list_elem_of_singleton in H; by vm_compute in H]. }
  destruct (total_duplication root) as [[|p l]|e] eqn:Ht; cbn.
  - by intros ?%elem_of_nil.
  - intros _. by exists xml, root, p, l.
  - by intros ?%elem_of_nil.
Qed.

Lemma main_empty_report_witness :
  main Samples.argv_no_root (fun _ => Ok Samples.empty_report) Samples.tree
       Samples.show_percent
  = ([], Ok tt).
Proof.
  apply (proj1 (main_empty_report Samples.argv_no_root
                  (fun _ => Ok Samples.empty_report) Samples.tree
                  Samples.show_percent) "report.xml" Samples.empty_report);
    reflexivity.
Defined.

End SortDupFacts.

(* ================================================================== *)
(** * Properties of csv2wiki.py *)
(* ================================================================== *)

Module Csv2WikiFacts.
Import Py Py.Notations Csv2Wiki Spec.


Section RowFacts.
Variable site : list event -> save_call -> bool.
Hypothesis new_accepted : forall h c, section c = Some New -> site h c = true.

Variables (header row : list string) (row_num : nat) (t : string).


Lemma with_category_cons cats cell rest :
  rest <> [] -> with_category cats (cell :: rest) = with_category cats rest.
Proof. intros Hne. unfold with_category. by destruct rest. Qed.

End RowFacts.




End Csv2WikiFacts.

(* ================================================================== *)
(** * More on the Python fragment *)
(* ================================================================== *)

Module PyMore.
Import Py Py.Notations Spec Further PyFacts.

(** ** [split] and [join] *)

Lemma length_append (a b : string) :
  String.length (a +:+ b) = (String.length a + String.length b)%nat.
Proof. induction a as [|c a IH]; [done |]. rewrite append_cons. cbn. by rewrite IH. Qed.

Lemma append_inj_length (a b x y : string) :
  a +:+ x = b +:+ y -> String.length a = String.length b -> a = b /\ x = y.
Proof.
  revert b. induction a as [|c a IH]; intros [|d b] H Hlen; try done.
  rewrite !append_cons in H. injection H as -> H. cbn in Hlen.
  destruct (IH b H) as [-> ->]; [lia | done].
Qed.

Lemma drop_str_append (a b : string) : drop_str (String.length a) (a +:+ b) = b.
Proof. induction a as [|c a IH]; [by destruct b | done]. Qed.

Lemma drop_str_nil (n : nat) : drop_str n "" = "".
Proof. by destruct n. Qed.

(** Joining the pieces with the separator gives the string back. *)
Lemma split_go_join (sep : string) :
  sep <> "" ->
  forall s k cur, join sep (split_go sep k cur s) = cur +:+ drop_str k s.
Proof.
  intros Hsep. induction s as [|c s IH]; intros k cur.
  - cbn [split_go join]. by rewrite drop_str_nil, append_nil_r.
  - destruct k as [|k]; cbn [split_go drop_str]; [| apply IH].
    destruct (String.prefix sep (String c s)) eqn:Hp.
    + destruct (split_go_nonempty sep "" s (Nat.pred (String.length sep)))
        as (b & rest & Hsplit).
      pose proof (IH (Nat.pred (String.length sep)) "") as Hj.
      rewrite Hsplit in Hj |- *. cbn [join] in Hj |- *. rewrite Hj.
      apply prefix_append in Hp as [r Hr].
      destruct sep as [|x sep]; [done |]. rewrite append_cons in Hr.
      injection Hr as -> ->. cbn [String.length Nat.pred].
      by rewrite drop_str_append.
    + rewrite IH. cbn [drop_str]. by rewrite append_snoc.
Qed.

(** No piece contains the separator. *)
Lemma split_go_pieces (sep : string) :
  sep <> "" ->
  forall s k cur,
    ~ starts_inside sep cur (drop_str k s) ->
    Forall (fun piece => ~ occurs sep piece) (split_go sep k cur s).
Proof.
  intros Hsep.
  assert (forall cur s, ~ starts_inside sep cur s -> ~ occurs sep cur) as Hcur.
  { intros cur s Hno (pre & post & ->). apply Hno.
    exists pre, (post +:+ s). split; [by rewrite !append_assoc |].
    rewrite !length_append. destruct sep; [done |]. cbn. lia. }
  induction s as [|c s IH]; intros k cur Hno.
  - rewrite drop_str_nil in Hno. cbn [split_go].
    constructor; [by eapply Hcur | constructor].
  - destruct k as [|k]; cbn [split_go drop_str] in *; [| by apply IH].
    destruct (String.prefix sep (String c s)) eqn:Hp.
    + constructor; [by eapply Hcur |]. apply IH.
      intros (pre & post & _ & Hlt). cbn in Hlt. lia.
    + apply IH. cbn [drop_str].
      intros (pre & post & Heq & Hlt). rewrite append_snoc in Heq.
      rewrite length_append in Hlt. cbn in Hlt.
      destruct (decide (String.length pre = String.length cur)) as [Hlen|Hlen].
      * symmetry in Heq.
        destruct (append_inj_length _ _ _ _ Heq Hlen) as [_ Hs].
        assert (String.prefix sep (String c s) = true); [| congruence].
        apply prefix_append. by exists post.
      * apply Hno. exists pre, post. split; [done | lia].
Qed.

(** The scan closes its first piece at the leftmost occurrence of the
    separator and starts afresh behind it. *)
Lemma split_go_first (sep : string) :
  sep <> "" ->
  forall s cur,
    (~ occurs sep s /\ split_go sep 0 cur s = [cur +:+ s])
    \/ exists pre post,
         first_split sep s pre post
         /\ split_go sep 0 cur s = (cur +:+ pre) :: split_go sep 0 "" post.
Proof.
  intros Hsep. induction s as [|c s IH]; intros cur.
  - left. split; [| cbn [split_go]; by rewrite append_nil_r].
    intros (pre & post & H). destruct pre; [| done]. by destruct sep.
  - cbn [split_go]. destruct (String.prefix sep (String c s)) eqn:Hp.
    + right. apply prefix_append in Hp as [r Hr]. exists "", r.
      split; [split; [exact Hr | intros; cbn; lia] |].
      rewrite append_nil_r. f_equal.
      destruct sep as [|x sep]; [done |]. rewrite append_cons in Hr.
      injection Hr as _ ->. cbn [String.length Nat.pred].
      apply split_go_skip.
    + assert (forall pre' post',
                String c s = pre' +:+ sep +:+ post' ->
                exists pre'', pre' = String c pre'' /\ s = pre'' +:+ sep +:+ post')
        as Htail.
      { intros pre' post' H. destruct pre' as [|x pre'].
        - assert (String.prefix sep (String c s) = true); [| congruence].
          apply prefix_append. by exists post'.
        - rewrite append_cons in H. injection H as <- ->. by exists pre'. }
      destruct (IH (cur +:+ String c "")) as [[Hno Heq]|(pre & post & [Hs Hmin] & Heq)].
      * left. split; [| by rewrite Heq, append_snoc].
        intros (pre' & post' & H).
        destruct (Htail _ _ H) as (pre'' & _ & Hs). apply Hno. by exists pre'', post'.
      * right. exists (String c pre), post. split; [split |].
        -- by rewrite append_cons, <- Hs.
        -- intros pre' post' H. destruct (Htail _ _ H) as (pre'' & -> & Hs').
           specialize (Hmin _ _ Hs'). cbn. lia.
        -- by rewrite Heq, append_snoc.
Qed.

(** The first occurrence cuts a string in one way only. *)
Lemma first_split_unique (sep s pre post pre' post' : string) :
  first_split sep s pre post -> first_split sep s pre' post' ->
  pre = pre' /\ post = post'.
Proof.
  intros [Hs Hmin] [Hs' Hmin'].
  pose proof (Hmin _ _ Hs'). pose proof (Hmin' _ _ Hs).
  rewrite Hs in Hs'.
  destruct (append_inj_length _ _ _ _ Hs') as [-> Hrest]; [lia |].
  split; [done |]. by destruct (append_inj_length _ _ _ _ Hrest eq_refl).
Qed.

(** ** Floats *)

(** A float divided by itself is 1.0. *)
Lemma round53_self b : 0 < b -> round53 (b * one) b = one.
Proof.
  intros Hb. unfold round53.
  rewrite (Z.mul_comm b one), Z.div_mul by lia.
  change (Z.max 0 (Z.log2 one - 52)) with 1022.
  replace (one * b) with (2 ^ 52 * (b * 2 ^ 1022))
    by (change one with (2 ^ 52 * 2 ^ 1022); lia).
  rewrite rne_exact; [done |].
  assert (0 < 2 ^ 1022) by (by apply Z.pow_pos_nonneg). nia.
Qed.

Lemma round2_one : round2 one = one.
Proof. by vm_compute. Qed.

Lemma hundredths_mono x y : 0 <= x <= y -> 0 <= hundredths x <= hundredths y.
Proof.
  intros Hxy. unfold hundredths.
  assert (0 < 2 ^ 1074) as Hu by (by apply Z.pow_pos_nonneg).
  assert (0 < 2 ^ 1075) as Hv by (by apply Z.pow_pos_nonneg).
  assert (0 <= (Z.abs x * 200 + 2 ^ 1074) / 2 ^ 1075
          <= (Z.abs y * 200 + 2 ^ 1074) / 2 ^ 1075) as [H0 Hle].
  { split; [apply Z.div_pos; lia | apply Z.div_le_mono; lia]. }
  set (hx := (Z.abs x * 200 + 2 ^ 1074) / 2 ^ 1075) in *.
  set (hy := (Z.abs y * 200 + 2 ^ 1074) / 2 ^ 1075) in *.
  destruct (Z.eq_dec x 0) as [->|Hx].
  - change (Z.sgn 0) with 0.
    destruct (Z.eq_dec y 0) as [->|Hy]; [change (Z.sgn 0) with 0; lia |].
    rewrite Z.sgn_pos by lia. lia.
  - rewrite !Z.sgn_pos by lia. lia.
Qed.

Lemma round2_mono x y : 0 <= x <= y -> 0 <= round2 x <= round2 y.
Proof.
  intros Hxy. pose proof (hundredths_mono x y Hxy) as [H0 Hle].
  unfold round2.
  assert (0 < 2 ^ 1074) as Hu by (by apply Z.pow_pos_nonneg).
  rewrite !nearest_nonneg by nia. split.
  - apply round53_nonneg; nia.
  - apply round53_mono; nia.
Qed.

(** The quotient grows with the dividend and shrinks with the divisor. *)
Lemma fdiv_mono a a' b b' q q' :
  0 <= a <= a' -> 0 < b' <= b ->
  fdiv a b = Ok q -> fdiv a' b' = Ok q' -> 0 <= q <= q'.
Proof.
  intros Ha Hb. unfold fdiv.
  rewrite !(proj2 (Z.eqb_neq _ 0)) by lia.
  rewrite !Z.sgn_pos, !Z.mul_1_r, (Z.abs_eq b), (Z.abs_eq b') by lia.
  destruct (_ <=? _); [| done]. intros [= <-].
  destruct (_ <=? _); [| done]. intros [= <-].
  assert (0 < 2 ^ 1074) as Hu by (by apply Z.pow_pos_nonneg).
  rewrite !nearest_nonneg by nia. split.
  - apply round53_nonneg; nia.
  - apply round53_mono; [nia | lia | lia |].
    set (u := 2 ^ 1074) in *. nia.
Qed.

(** ** [sorted] *)

Lemma sorted_of_sorted {A} (key : A -> float) (l : list A) :
  StronglySorted (key_le key) l -> sorted key l = l.
Proof.
  induction 1 as [|x l Hs IH Hx]; [done |].
  cbn [sorted]. rewrite IH. destruct l as [|y l]; [done |].
  cbn [insert]. apply Forall_cons in Hx as [Hxy _]. unfold key_le in Hxy.
  by rewrite (proj2 (Z.leb_le _ _)) by done.
Qed.

End PyMore.

(* ================================================================== *)
(** * More on sort-duplicates.py *)
(* ================================================================== *)

Module SortDupMore.
Import Py Py.Notations SortDup Spec Further PyFacts SortDupFacts PyMore.

(** ** Path normalisation *)

(** The pieces of a path around the first and the next occurrence of
    the marker. *)
Lemma chop_pieces path :
  (~ occurs marker path /\ chop path = Raise IndexError)
  \/ exists pre post,
       first_split marker path pre post
       /\ ((~ occurs marker post /\ chop path = Ok post)
           \/ exists p rest,
                first_split marker post p rest /\ chop path = Ok p).
Proof.
  assert (chop path
          = of_option IndexError (split_go marker 0 "" path !! 1%nat)) as ->
    by reflexivity.
  destruct (split_go_first marker marker_nonempty path "")
    as [[Hno ->]|(pre & post & Hfirst & ->)]; [by left |].
  right. exists pre, post. split; [done |].
  destruct (split_go_first marker marker_nonempty post "")
    as [[Hno ->]|(p & rest & Hnext & ->)].
  - by left.
  - right. by exists p, rest.
Qed.

(** X1.  chop returns [p] exactly when [p] is the piece of the raw path
    that starts right behind the first (leftmost) occurrence of the
    marker and ends where the marker next occurs behind that, or at the
    end of the path when it does not occur again. *)
Theorem chop_between path p :
  chop path = Ok p
  <-> exists pre post,
        first_split marker path pre post
        /\ ((~ occurs marker post /\ p = post)
            \/ exists rest, first_split marker post p rest).
Proof.
  destruct (chop_pieces path)
    as [[Hno Hrun]|(pre & post & Hfirst & Hnext)].
  - rewrite Hrun. split; [done |].
    intros (pre & post & [-> _] & _). destruct Hno. by exists pre, post.
  - split.
    + intros Hrun. exists pre, post. split; [done |].
      destruct Hnext as [[Hno Hp]|(p' & rest & Hnext & Hp)].
      * left. split; [done | congruence].
      * right. exists rest. congruence.
    + intros (pre' & post' & Hfirst' & Hnext').
      destruct (first_split_unique _ _ _ _ _ _ Hfirst Hfirst') as [<- <-].
      destruct Hnext as [[Hno Hp]|(p' & rest & Hnext & Hp)];
        destruct Hnext' as [[Hno' ->]|(rest' & Hnext')].
      * done.
      * destruct Hno. destruct Hnext' as [-> _]. by exists p, rest'.
      * destruct Hno'. destruct Hnext as [-> _]. by exists p', rest.
      * by destruct (first_split_unique _ _ _ _ _ _ Hnext Hnext') as [-> _].
Qed.

Lemma chop_between_witness :
  chop "../../../../x" = Ok "../x"
  /\ exists pre post,
       first_split marker "../../../../x" pre post
       /\ ((~ occurs marker post /\ "../x" = post)
           \/ exists rest, first_split marker post "../x" rest).
Proof.
  split; [reflexivity |].
  apply (proj1 (chop_between "../../../../x" "../x")). reflexivity.
Defined.

(** A marker that overlaps itself: the occurrence that counts is the
    leftmost one, and the piece ends where the marker next begins. *)
Example chop_sample :
  chop "../../../../x" = Ok "../x"
  /\ chop "a../../../b../../../c" = Ok "b"
  /\ chop "/home/u/../../../src/A.java" = Ok "src/A.java".
Proof. by vm_compute. Qed.

(** X2.  chop returns exactly when the marker occurs in the path;
    otherwise it raises IndexError, and it raises nothing else. *)
Theorem chop_outcome path :
  (occurs marker path /\ exists p, chop path = Ok p)
  \/ (~ occurs marker path /\ chop path = Raise IndexError).
Proof.
  destruct (occursb marker path) eqn:Hb.
  - left. apply occursb_spec in Hb. split; [done | by apply chop_present].
  - right. assert (~ occurs marker path) as Hno
      by (rewrite <- occursb_spec; congruence).
    split; [done | by apply chop_absent].
Qed.

(** ** The Pair Aggregator *)

Lemma sumZ_app l1 l2 : sumZ (l1 ++ l2) = sumZ l1 + sumZ l2.
Proof. induction l1 as [|x l1 IH]; cbn; [done | unfold sumZ in *; cbn; lia]. Qed.

Lemma sum_indicator {K} `{EqDecision K} (x : K) (v : Z) (l : list K) :
  NoDup l ->
  sumZ ((fun k => if decide (x = k) then v else 0) <$> l)
  = if decide (x ∈ l) then v else 0.
Proof.
  induction 1 as [|k l Hk Hnd IH]; [done |].
  rewrite fmap_cons. unfold sumZ in *. cbn [foldr]. rewrite IH.
  destruct (decide (x = k)) as [->|Hne].
  - rewrite (decide_True (P := k ∈ k :: l)) by (apply elem_of_cons; by left).
    rewrite decide_False by done. lia.
  - destruct (decide (x ∈ l)) as [Hin|Hnin].
    + rewrite decide_True by (apply elem_of_cons; by right). lia.
    + rewrite decide_False by (by intros [?|?]%elem_of_cons). lia.
Qed.

Lemma sumZ_add {K} (f g : K -> Z) (l : list K) :
  sumZ ((fun k => f k + g k) <$> l) = sumZ (f <$> l) + sumZ (g <$> l).
Proof. induction l as [|k l IH]; [done |]. unfold sumZ in *. cbn. lia. Qed.

(** Summed over the distinct pairs, the totals make up all the lines. *)
Lemma sum_total_lines recs :
  sumZ ((fun k => total_lines k recs) <$> first_seen (clone_key <$> recs))
  = sumZ (lines <$> recs).
Proof.
  induction recs as [|c recs IH] using rev_ind; [done |].
  rewrite !fmap_app. change (clone_key <$> [c]) with [clone_key c].
  rewrite first_seen_snoc, sumZ_app.
  pose proof (first_seen_NoDup (clone_key <$> recs)) as Hnd.
  assert (forall l : list (string * string),
            sumZ ((fun k => total_lines k (recs ++ [c])) <$> l)
            = sumZ ((fun k => total_lines k recs) <$> l)
              + sumZ ((fun k => if decide (clone_key c = k) then lines c else 0)
                        <$> l)) as Hsplit.
  { intros l. rewrite <- sumZ_add. f_equal. apply list_fmap_ext.
    intros _ k _. apply total_lines_snoc. }
  destruct (decide (clone_key c ∈ clone_key <$> recs)) as [Hin|Hnin].
  - rewrite Hsplit, IH, sum_indicator by done.
    rewrite decide_True by (by apply first_seen_elem). cbn. unfold sumZ. cbn. lia.
  - rewrite fmap_app, sumZ_app, Hsplit, IH, sum_indicator by done.
    rewrite decide_False by (by rewrite first_seen_elem).
    cbn. rewrite total_lines_snoc, total_lines_absent by done.
    rewrite decide_True by done. unfold sumZ. cbn. lia.
Qed.

Lemma first_seen_length {K} `{EqDecision K} (l : list K) :
  (length (first_seen l) <= length l)%nat.
Proof.
  induction l as [|k l IH]; cbn; [lia |].
  pose proof (length_filter (fun x => x <> k) (first_seen l)). lia.
Qed.

(** X3.  Aggregation loses no line and invents none: the counts of the
    output, read by int, add up to the sum of [lines] over all records;
    and the output is not longer than the report. *)
Theorem total_duplication_conserves xml_root recs :
  Forall2 carries (_children xml_root) recs ->
  exists out counts,
    total_duplication xml_root = Ok out
    /\ Forall2 (fun e n => int (pair0 e) = Ok n) out counts
    /\ sumZ counts = sumZ (lines <$> recs)
    /\ (length out <= length recs)%nat.
Proof.
  intros (out & Hrun & Hkeys & Hvals)%total_duplication_spec.
  exists out, ((fun e => total_lines (pair_key e) recs) <$> out).
  split_and!; [done | | |].
  - apply Forall2_fmap_r, Forall_Forall2_diag. exact Hvals.
  - rewrite <- sum_total_lines, <- Hkeys, <- list_fmap_compose. done.
  - pose proof (first_seen_length (clone_key <$> recs)) as Hlen.
    rewrite <- Hkeys, !length_fmap in Hlen. done.
Qed.

Lemma total_duplication_conserves_witness :
  Forall2 carries (_children Samples.report) Samples.report_clones
  /\ exists out counts,
       total_duplication Samples.report = Ok out
       /\ Forall2 (fun e n => int (pair0 e) = Ok n) out counts
       /\ sumZ counts = sumZ (lines <$> Samples.report_clones)
       /\ (length out <= length Samples.report_clones)%nat.
Proof.
  split.
  - repeat constructor; eexists; split; reflexivity.
  - apply (total_duplication_conserves Samples.report Samples.report_clones).
    repeat constructor; eexists; split; reflexivity.
Defined.

Lemma add_to_existing_absent acc p1 p2 s :
  (p1, p2) ∉ pair_key <$> acc -> add_to_existing acc p1 p2 s = Ok None.
Proof.
  induction acc as [|e acc IH]; [done |].
  rewrite fmap_cons, not_elem_of_cons. intros [Hne Hnotin].
  cbn [add_to_existing].
  destruct (bool_decide (pair1 e = p1) && bool_decide (pair2 e = p2)) eqn:Hb.
  - apply andb_true_iff in Hb as [H1%bool_decide_eq_true H2%bool_decide_eq_true].
    destruct Hne. unfold pair_key. congruence.
  - by rewrite IH.
Qed.

Lemma total_duplication_loop_distinct filepairs triples :
  Forall2 (fun fp t => read_filepair fp = Ok t) filepairs triples ->
  forall acc,
    NoDup ((pair_key <$> acc) ++ (fst <$> triples)) ->
    total_duplication_loop filepairs acc = Ok (acc ++ (fresh_pair <$> triples)).
Proof.
  induction 1 as [|fp [[p1 p2] s] filepairs triples Hread _ IH]; intros acc Hnd.
  - by rewrite app_nil_r.
  - cbn [total_duplication_loop]. rewrite Hread. cbn [bind].
    rewrite fmap_cons in Hnd. cbn [fst] in Hnd.
    rewrite add_to_existing_absent.
    + cbn [bind]. rewrite IH.
      * by rewrite <- app_assoc.
      * rewrite fmap_app, <- app_assoc. exact Hnd.
    + apply NoDup_app in Hnd as (_ & Hdisj & _).
      intros Hin. apply (Hdisj _ Hin). apply elem_of_cons. by left.
Qed.

(** X4.  A count is only read by int when a second record of its pair
    arrives: for records with pairwise distinct ordered pairs, whatever
    their [lines] attributes hold, total_duplication returns one entry
    per record, in order, with the string of the report as count. *)
Theorem total_duplication_distinct xml_root triples :
  Forall2 (fun fp t => read_filepair fp = Ok t) (_children xml_root) triples ->
  NoDup (fst <$> triples) ->
  total_duplication xml_root = Ok (fresh_pair <$> triples).
Proof.
  intros Hread Hnd. unfold total_duplication.
  by rewrite (total_duplication_loop_distinct _ _ Hread []).
Qed.

Lemma total_duplication_distinct_witness :
  Forall2 (fun fp t => read_filepair fp = Ok t)
    [Samples.filepair_elem "../../../A" "../../../B" "many";
     Samples.filepair_elem "../../../B" "../../../A" "7"]
    [("A", "B", "many"); ("B", "A", "7")]
  /\ NoDup (fst <$> [("A", "B", "many"); ("B", "A", "7")])
  /\ total_duplication
       (Elem ∅ [Samples.filepair_elem "../../../A" "../../../B" "many";
                Samples.filepair_elem "../../../B" "../../../A" "7"])
     = Ok [Pair (PStr "many") "A" "B"; Pair (PStr "7") "B" "A"].
Proof.
  assert (Forall2 (fun fp t => read_filepair fp = Ok t)
            [Samples.filepair_elem "../../../A" "../../../B" "many";
             Samples.filepair_elem "../../../B" "../../../A" "7"]
            [("A", "B", "many"); ("B", "A", "7")]) as Hread
    by (repeat constructor).
  assert (NoDup (fst <$> [("A", "B", "many"); ("B", "A", "7")])) as Hnd
    by (cbn; apply NoDup_cons; split;
        [by intros [=]%list_elem_of_singleton | apply NoDup_singleton]).
  split; [exact Hread |]. split; [exact Hnd |].
  exact (total_duplication_distinct
           (Elem ∅ [Samples.filepair_elem "../../../A" "../../../B" "many";
                    Samples.filepair_elem "../../../B" "../../../A" "7"])
           _ Hread Hnd).
Defined.

(** X5.  When the first two records name the same ordered pair and
    [int] refuses the [lines] attribute of one of them, the merge raises
    ValueError. *)
Theorem total_duplication_merge_value_error xml_root fp1 fp2 rest p1 p2 s1 s2 :
  _children xml_root = fp1 :: fp2 :: rest ->
  read_filepair fp1 = Ok (p1, p2, s1) ->
  read_filepair fp2 = Ok (p1, p2, s2) ->
  int_of_str s1 = Raise ValueError \/ int_of_str s2 = Raise ValueError ->
  total_duplication xml_root = Raise ValueError.
Proof.
  intros Hc H1 H2 Hbad. unfold total_duplication. rewrite Hc.
  cbn [total_duplication_loop add_to_existing]. rewrite H1. cbn [bind app].
  rewrite H2. cbn [bind add_to_existing pair1 pair2 pair0 int].
  rewrite !bool_decide_eq_true_2 by done. cbn [andb].
  destruct Hbad as [Hbad|Hbad]; rewrite Hbad; [done |].
  by destruct (int_of_str s1) as [n|e] eqn:Hs1;
    [| apply (int_raise (PStr s1)) in Hs1 as ->].
Qed.

Lemma total_duplication_merge_value_error_witness :
  total_duplication
    (Elem ∅ [Samples.filepair_elem "../../../A" "../../../B" "many";
             Samples.filepair_elem "../../../A" "../../../B" "7"])
  = Raise ValueError.
Proof.
  apply (total_duplication_merge_value_error _
           (Samples.filepair_elem "../../../A" "../../../B" "many")
           (Samples.filepair_elem "../../../A" "../../../B" "7")
           [] "A" "B" "many" "7");
    [reflexivity | reflexivity | reflexivity | left; reflexivity].
Defined.

(** What [int] reads is summed, a sign followed by a blank included. *)
Example total_duplication_signed_sample :
  total_duplication
    (Elem ∅ [Samples.filepair_elem "../../../A" "../../../B" "+ 5";
             Samples.filepair_elem "../../../A" "../../../B" " 7 "])
  = Ok [Pair (PInt 12) "A" "B"].
Proof. by vm_compute. Qed.

(** ** The File Size Resolver *)

Lemma find_filesizes_loop_outcome argv open_file filelist : forall acc,
  match find_filesizes_loop argv open_file filelist acc with
  | (out, Ok (Some sizes)) =>
      out = []
      /\ exists new, sizes = acc ++ new
                     /\ Forall2 (sized_from argv open_file) filelist new
  | (out, Ok None) => out = [usage_root] /\ filelist <> []
  | (out, Raise e) => out = [] /\ e <> IndexError /\ filelist <> []
  end.
Proof.
  induction filelist as [|p rest IH]; intros acc; cbn [find_filesizes_loop].
  - split; [done |]. exists []. by rewrite app_nil_r.
  - unfold index. destruct (argv !! 2%nat) as [root|] eqn:Hroot;
      cbn [of_option bind]; [| done].
    destruct (file_len open_file (root +:+ pair1 p)) as [n1|e] eqn:H1;
      cbn [bind]; [| by destruct e].
    destruct (file_len open_file (root +:+ pair2 p)) as [n2|e] eqn:H2;
      cbn [bind]; [| by destruct e].
    specialize (IH (acc ++ [Sized (pair0 p) n1 (pair1 p) n2 (pair2 p)])).
    destruct (find_filesizes_loop _ _ rest _) as [out [[sizes|]|e]].
    + destruct IH as (-> & new & -> & Hnew). split; [done |].
      exists (Sized (pair0 p) n1 (pair1 p) n2 (pair2 p) :: new).
      split; [by rewrite <- app_assoc |]. constructor; [| done].
      split_and!; try done. by exists root.
    + by destruct IH as [-> _].
    + by destruct IH as (-> & ? & _).
Qed.

Lemma find_filesizes_cases argv open_file filelist :
  match find_filesizes argv open_file filelist with
  | (out, Ok (Some sizes)) =>
      out = [] /\ Forall2 (sized_from argv open_file) filelist sizes
  | (out, Ok None) => out = [usage_root] /\ filelist <> []
  | (out, Raise e) => out = [] /\ e <> IndexError /\ filelist <> []
  end.
Proof.
  unfold find_filesizes.
  pose proof (find_filesizes_loop_outcome argv open_file filelist []) as H.
  destruct (find_filesizes_loop _ _ _ _) as [out [[sizes|]|e]]; [| done | done].
  by destruct H as (-> & new & -> & Hnew).
Qed.

(** X6.  find_filesizes has three outcomes.  It returns a list: then
    nothing was printed and the list has one entry per pair, in order,
    with the count and the paths of the pair and the line counts of its
    two files under the root.  It returns [None]: then the usage message
    is all it printed.  It raises: then nothing was printed and the
    exception is not an IndexError. *)
Theorem find_filesizes_outcome argv open_file filelist :
  match find_filesizes argv open_file filelist with
  | (out, Ok (Some sizes)) =>
      out = [] /\ Forall2 (sized_from argv open_file) filelist sizes
  | (out, Ok None) => out = [usage_root] /\ filelist <> []
  | (out, Raise e) => out = [] /\ e <> IndexError /\ filelist <> []
  end.
Proof. apply find_filesizes_cases. Qed.

Lemma find_filesizes_loop_ok argv open_file root filelist : forall acc,
  argv !! 2%nat = Some root ->
  Forall (fun p => exists n1 n2,
            file_len open_file (root +:+ pair1 p) = Ok n1
            /\ file_len open_file (root +:+ pair2 p) = Ok n2) filelist ->
  exists sizes, find_filesizes_loop argv open_file filelist acc = ([], Ok (Some sizes)).
Proof.
  intros acc Hroot Hall. revert acc.
  induction Hall as [|p rest (n1 & n2 & H1 & H2) _ IH]; intros acc;
    cbn [find_filesizes_loop]; [eauto |].
  unfold index. rewrite Hroot. cbn [of_option bind]. rewrite H1. cbn [bind].
  rewrite H2. cbn [bind]. apply IH.
Qed.

(** ** The Percentage Calculator *)

(** X7.  A file duplicated in full scores exactly 1.0, a count of zero
    scores exactly 0.0. *)
Theorem percent_extremes n :
  1 <= n < float_int_bound ->
  percent n n = Ok one /\ percent 0 n = Ok 0.
Proof.
  intros Hn. unfold percent.
  destruct (float_of_int_ok n ltac:(lia)) as (b & Hb & Hmax).
  pose proof (float_of_int_ge_one _ _ (proj1 Hn) Hb) as H1.
  pose proof one_pos. pose proof one_le_max_float.
  rewrite Hb. cbn [bind]. change (float_of_int 0) with (Ok 0 : result float).
  cbn [bind]. unfold fdiv. rewrite (proj2 (Z.eqb_neq b 0)) by lia.
  rewrite Z.sgn_pos, Z.mul_1_r, (Z.abs_eq b) by lia. fold one.
  rewrite nearest_nonneg, round53_self by lia.
  rewrite (proj2 (Z.leb_le (Z.abs one) _)) by lia. cbn [bind].
  rewrite round2_one. split; [done |].
  change (0 * one) with 0. rewrite nearest_nonneg, round53_zero by lia.
  done.
Qed.

Lemma percent_extremes_witness :
  1 <= 200 < float_int_bound /\ percent 200 200 = Ok one /\ percent 0 200 = Ok 0.
Proof.
  assert (1 <= 200 < float_int_bound) as H by (split; by vm_compute).
  split; [exact H |]. exact (percent_extremes 200 H).
Defined.

(** X8.  The percentage grows with the count and shrinks with the size
    of the file. *)
Theorem percent_monotone dupe dupe' size size' p p' :
  0 <= dupe <= dupe' -> 1 <= size' <= size ->
  percent dupe size = Ok p -> percent dupe' size' = Ok p' ->
  0 <= p <= p'.
Proof.
  intros Hd Hs. unfold percent.
  destruct (float_of_int dupe) as [a|] eqn:Ha; [| done].
  destruct (float_of_int size) as [b|] eqn:Hb; [| done].
  destruct (float_of_int dupe') as [a'|] eqn:Ha'; [| done].
  destruct (float_of_int size') as [b'|] eqn:Hb'; [| done].
  cbn [bind].
  destruct (fdiv a b) as [q|] eqn:Hq; [| done].
  destruct (fdiv a' b') as [q'|] eqn:Hq'; [| done].
  cbn [bind]. intros [= <-] [= <-].
  pose proof (float_of_int_mono _ _ _ _ Hd Ha Ha').
  assert (0 <= size' <= size) as Hs' by lia.
  pose proof (float_of_int_mono _ _ _ _ Hs' Hb' Hb).
  pose proof (float_of_int_ge_one _ _ (proj1 Hs) Hb'). pose proof one_pos.
  apply round2_mono. by apply (fdiv_mono a a' b b'); [| lia | |].
Qed.

Lemma percent_monotone_witness :
  0 <= 40 <= 80 /\ 1 <= 200 <= 400
  /\ percent 40 400 = Ok (nearest (10 * 2 ^ 1074) 100)
  /\ percent 80 200 = Ok (nearest (40 * 2 ^ 1074) 100)
  /\ 0 <= nearest (10 * 2 ^ 1074) 100 <= nearest (40 * 2 ^ 1074) 100.
Proof.
  assert (percent 40 400 = Ok (nearest (10 * 2 ^ 1074) 100)) as H1 by (by vm_compute).
  assert (percent 80 200 = Ok (nearest (40 * 2 ^ 1074) 100)) as H2 by (by vm_compute).
  split; [lia |]. split; [lia |]. split; [exact H1 |]. split; [exact H2 |].
  assert (0 <= 40 <= 80) as Hd by lia.
  assert (1 <= 200 <= 400) as Hs by lia.
  exact (percent_monotone 40 80 400 200 _ _ Hd Hs H1 H2).
Defined.

(** X9.  A size of zero makes percentage_duplicated raise
    ZeroDivisionError: for the first file at once, for the second after
    the first percentage has been computed. *)
Theorem percentage_duplicated_zero_size arr rest dupe :
  int (arr0 arr) = Ok dupe ->
  Z.abs dupe < float_int_bound ->
  arr1 arr = 0 \/ (1 <= arr1 arr < float_int_bound /\ arr3 arr = 0) ->
  percentage_duplicated (Some (arr :: rest)) = Raise ZeroDivisionError.
Proof.
  intros Hint Hd Hzero. cbn [percentage_duplicated percentage_loop].
  rewrite Hint. cbn [bind].
  assert (percent dupe 0 = Raise ZeroDivisionError) as Hz.
  { unfold percent. destruct (float_of_int_ok dupe Hd) as (a & -> & _).
    cbn [bind]. by change (float_of_int 0) with (Ok 0 : result float). }
  destruct Hzero as [->|[H1 ->]]; [by rewrite Hz |].
  destruct (percent_ok dupe (arr1 arr) Hd H1) as (p1 & ->). cbn [bind].
  by rewrite Hz.
Qed.

Lemma percentage_duplicated_zero_size_witness :
  percentage_duplicated (Some [Sized (PStr "5") 0 "A" 10 "B"])
  = Raise ZeroDivisionError.
Proof.
  apply (percentage_duplicated_zero_size (Sized (PStr "5") 0 "A" 10 "B") [] 5);
    [reflexivity | by vm_compute | left; reflexivity].
Defined.

(** ** The Sorter *)

(** X10.  sort_files leaves a list that is already in non-decreasing
    order of the first percentage as it is; sorting twice is sorting
    once; and the length is kept. *)
Theorem sort_files_idempotent (percent_array : list scored) :
  (StronglySorted (key_le duped0) percent_array ->
   sort_files percent_array = percent_array)
  /\ sort_files (sort_files percent_array) = sort_files percent_array
  /\ length (sort_files percent_array) = length percent_array.
Proof.
  unfold sort_files. split_and!.
  - apply sorted_of_sorted.
  - apply sorted_of_sorted, sorted_sorted.
  - apply Permutation_length, sorted_perm.
Qed.

(** ** The run *)

Lemma percentage_loop_no_type_error size_array :
  percentage_loop size_array <> Raise TypeError.
Proof.
  assert (forall d n, percent d n <> Raise TypeError) as Hp.
  { intros d n. unfold percent, float_of_int, fdiv.
    repeat (case_match; cbn [bind]); done. }
  induction size_array as [|arr size_array IH]; [done |].
  cbn [percentage_loop].
  destruct (int (arr0 arr)) as [dupe|e] eqn:Hint; cbn [bind];
    [| by apply int_raise in Hint as ->].
  pose proof (Hp dupe (arr1 arr)) as Hp1. pose proof (Hp dupe (arr3 arr)) as Hp3.
  destruct (percent dupe (arr1 arr)); cbn [bind];
    [| intros [= ->]; by apply Hp1].
  destruct (percent dupe (arr3 arr)); cbn [bind];
    [| intros [= ->]; by apply Hp3].
  destruct (percentage_loop size_array); cbn [bind];
    [done | intros [= ->]; by apply IH].
Qed.

(** X11.  A run that ends with an exception has printed nothing.  A
    run that returns has printed one of three things and nothing else:
    the usage message for the report, no report having been read; the
    usage message for the root, find_filesizes having returned [None]
    on the aggregated pairs of the report; or the pretty-printed sorted
    list of the percentages that percentage_duplicated computed from the
    sizes find_filesizes returned for the aggregated pairs of the
    report. *)
Theorem main_outcome argv parse open_file str_percent :
  match main argv parse open_file str_percent with
  | (out, Raise _) => out = []
  | (out, Ok _) =>
      (out = [usage_xml]
       /\ (let! path := index argv 1 in parse path) = Raise IndexError)
      \/ exists path root pairs,
           argv !! 1%nat = Some path
           /\ parse path = Ok root
           /\ total_duplication root = Ok pairs
           /\ ((out = [usage_root]
                /\ find_filesizes argv open_file pairs = ([usage_root], Ok None))
               \/ exists sizes percent_array,
                    find_filesizes argv open_file pairs = ([], Ok (Some sizes))
                    /\ percentage_duplicated (Some sizes) = Ok percent_array
                    /\ out = prettyprint_filelist str_percent
                               (sort_files percent_array))
  end.
Proof.
  unfold main, index.
  destruct (argv !! 1%nat) as [path|] eqn:Hpath; cbn [of_option bind];
    [| by left].
  destruct (parse path) as [root|e] eqn:Hparse; [| destruct e; auto].
  destruct (total_duplication root) as [pairs|e] eqn:Hpairs; [| done].
  pose proof (find_filesizes_cases argv open_file pairs) as Hsizes.
  destruct (find_filesizes argv open_file pairs) as [out [[sizes|]|e]]
    eqn:Hfind.
  - destruct Hsizes as [-> _]. cbn [percentage_duplicated].
    pose proof (percentage_loop_no_type_error sizes) as Hte.
    destruct (percentage_loop sizes) as [percent_array|e] eqn:Hpct.
    + right. exists path, root, pairs. split_and!; try done.
      right. by exists sizes, percent_array.
    + by destruct e.
  - destruct Hsizes as [-> _]. cbn [percentage_duplicated].
    right. exists path, root, pairs. split_and!; try done. by left.
  - by destruct Hsizes as [-> _].
Qed.

Lemma total_lines_bounds k recs :
  Forall (fun c => 0 <= lines c) recs ->
  0 <= total_lines k recs <= sumZ (lines <$> recs).
Proof.
  induction 1 as [|c recs Hc _ IH]; [done |].
  cbn [total_lines]. rewrite fmap_cons. unfold sumZ in *. cbn [foldr].
  case_decide; lia.
Qed.

Lemma prettyprint_filelist_length str_percent files :
  length (prettyprint_filelist str_percent files) = (4 * length files)%nat.
Proof.
  unfold prettyprint_filelist. induction files as [|d files IH]; [done |].
  cbn [flat_map]. rewrite length_app, IH. cbn. lia.
Qed.

(** X12.  With both arguments given, a report whose records are sound
    (counts not negative, their sum within the range of float) and
    whose files all exist under the root and have a line, the run
    returns after printing the report only: four lines per distinct
    ordered pair of the report, the pairs being those of the records. *)
Theorem main_prints_report argv parse open_file str_percent xml dir root recs :
  argv !! 1%nat = Some xml ->
  argv !! 2%nat = Some dir ->
  parse xml = Ok root ->
  Forall2 carries (_children root) recs ->
  Forall (fun c => 0 <= lines c) recs ->
  sumZ (lines <$> recs) < float_int_bound ->
  Forall (fun c => countable_file open_file dir (path_1 c)
                   /\ countable_file open_file dir (path_2 c)) recs ->
  exists percent_array,
    main argv parse open_file str_percent
    = (prettyprint_filelist str_percent (sort_files percent_array), Ok tt)
    /\ scored_key <$> percent_array = first_seen (clone_key <$> recs)
    /\ length (fst (main argv parse open_file str_percent))
       = (4 * length (first_seen (clone_key <$> recs)))%nat.
Proof.
  intros H1 H2 Hparse Hrecs Hpos Hsum Hfiles.
  destruct (total_duplication_spec _ _ Hrecs) as (pairs & Hrun & Hkeys & Hvals).
  (* every pair names two files that can be counted *)
  assert (Forall (fun p => countable_file open_file dir (pair1 p)
                           /\ countable_file open_file dir (pair2 p)) pairs)
    as Hcount.
  { apply Forall_forall. intros p Hp.
    assert (pair_key p ∈ clone_key <$> recs) as Hin.
    { rewrite <- first_seen_elem, <- Hkeys. apply list_elem_of_fmap. by exists p. }
    apply list_elem_of_fmap in Hin as (c & Hc & Hcin).
    rewrite Forall_forall in Hfiles. specialize (Hfiles c Hcin).
    unfold pair_key, clone_key in Hc. injection Hc as -> ->. exact Hfiles. }
  destruct (find_filesizes_loop_ok argv open_file dir pairs [] H2) as (sizes & Hsz).
  { eapply Forall_impl; [exact Hcount |].
    intros p [(f1 & Hf1 & Hne1 & _) (f2 & Hf2 & Hne2 & _)].
    exists (Z.of_nat (length f1)), (Z.of_nat (length f2)).
    split; by apply file_len_lines. }
  pose proof (find_filesizes_cases argv open_file pairs) as Hout.
  unfold find_filesizes in Hout. rewrite Hsz in Hout. destruct Hout as [_ Hfrom].
  (* the sizes are those of the data model *)
  assert (Forall well_sized sizes) as Hwell.
  { apply Forall_forall. intros a Ha.
    apply list_elem_of_lookup in Ha as [i Hi].
    destruct (Forall2_lookup_r _ _ _ _ _ Hfrom Hi)
      as (p & Hp & Ha0 & Ha2 & Ha4 & dir' & Hdir & Hl1 & Hl2).
    assert (dir' = dir) as -> by congruence.
    apply list_elem_of_lookup_2 in Hp.
    rewrite Forall_forall in Hvals, Hcount.
    destruct (Hcount p Hp) as [(f1 & Hf1 & Hne1 & Hb1) (f2 & Hf2 & Hne2 & Hb2)].
    rewrite (file_len_lines _ _ _ Hf1 Hne1) in Hl1.
    rewrite (file_len_lines _ _ _ Hf2 Hne2) in Hl2.
    injection Hl1 as Hl1. injection Hl2 as Hl2.
    pose proof (total_lines_bounds (pair_key p) recs Hpos).
    exists (total_lines (pair_key p) recs). rewrite Ha0, <- Hl1, <- Hl2.
    split; [by apply Hvals |].
    destruct f1; [done |]. destruct f2; [done |]. cbn [length] in *.
    split_and!; lia. }
  destruct (percentage_loop_spec sizes Hwell) as (percent_array & Hpct & Hscores).
  assert (main argv parse open_file str_percent
          = (prettyprint_filelist str_percent (sort_files percent_array), Ok tt))
    as Hmain.
  { unfold main, index. rewrite H1. cbn [of_option bind].
    rewrite Hparse, Hrun. unfold find_filesizes. rewrite Hsz.
    cbn [percentage_duplicated]. by rewrite Hpct. }
  assert (scored_key <$> percent_array = pair_key <$> pairs) as Hnames.
  { clear -Hfrom Hscores. revert percent_array Hscores.
    induction Hfrom as [|p a pairs sizes (Ha0 & Ha2 & Ha4 & _) _ IH];
      intros percent_array Hscores.
    - by apply Forall2_nil_inv_l in Hscores as ->.
    - apply Forall2_cons_inv_l in Hscores
        as (d & rest & (dupe & _ & _ & _ & Hd1 & Hd3 & _) & Hrest & ->).
      rewrite !fmap_cons, (IH _ Hrest). f_equal.
      unfold scored_key, pair_key. congruence. }
  exists percent_array. split; [exact Hmain |]. split; [by rewrite Hnames |].
  rewrite Hmain. cbn [fst].
  rewrite prettyprint_filelist_length.
  unfold sort_files. rewrite (Permutation_length (sorted_perm duped0 percent_array)).
  by rewrite <- Hkeys, <- Hnames, !length_fmap.
Qed.

Lemma main_prints_report_witness :
  exists percent_array,
    main Samples.argv_full (fun _ => Ok Samples.report) Samples.tree
         Samples.show_percent
    = (prettyprint_filelist Samples.show_percent (sort_files percent_array), Ok tt)
    /\ scored_key <$> percent_array
       = first_seen (clone_key <$> Samples.report_clones)
    /\ length (fst (main Samples.argv_full (fun _ => Ok Samples.report)
                         Samples.tree Samples.show_percent))
       = (4 * length (first_seen (clone_key <$> Samples.report_clones)))%nat.
Proof.
  apply (main_prints_report Samples.argv_full (fun _ => Ok Samples.report)
           Samples.tree Samples.show_percent "report.xml" "tree/"
           Samples.report Samples.report_clones);
    [reflexivity | reflexivity | reflexivity | | | by vm_compute |].
  - repeat constructor; eexists; split; reflexivity.
  - repeat constructor; by vm_compute.
  - assert (countable_file Samples.tree "tree/" "A") as HA.
    { exists (replicate 200 "line"). split_and!; [reflexivity | done | by vm_compute]. }
    assert (countable_file Samples.tree "tree/" "B") as HB.
    { exists (replicate 400 "line"). split_and!; [reflexivity | done | by vm_compute]. }
    repeat constructor; assumption.
Defined.

Lemma sort_files_idempotent_witness :
  StronglySorted (key_le duped0)
    [Scored 0 "A" one "B" (PInt 0); Scored one "C" 0 "D" (PInt 5);
     Scored one "E" one "F" (PInt 7)]
  /\ sort_files [Scored 0 "A" one "B" (PInt 0); Scored one "C" 0 "D" (PInt 5);
                 Scored one "E" one "F" (PInt 7)]
     = [Scored 0 "A" one "B" (PInt 0); Scored one "C" 0 "D" (PInt 5);
        Scored one "E" one "F" (PInt 7)].
Proof.
  assert (StronglySorted (key_le duped0)
            [Scored 0 "A" one "B" (PInt 0); Scored one "C" 0 "D" (PInt 5);
             Scored one "E" one "F" (PInt 7)]) as H
    by (repeat constructor; by vm_compute).
  split; [exact H |].
  exact (proj1 (sort_files_idempotent
                  [Scored 0 "A" one "B" (PInt 0); Scored one "C" 0 "D" (PInt 5);
                   Scored one "E" one "F" (PInt 7)]) H).
Defined.

(** A list out of order is put in order, ties in the order of the
    argument; a second pass changes nothing. *)
Example sort_files_sample :
  sort_files [Scored one "C" 0 "D" (PInt 5); Scored 0 "A" one "B" (PInt 0);
              Scored one "E" one "F" (PInt 7)]
  = [Scored 0 "A" one "B" (PInt 0); Scored one "C" 0 "D" (PInt 5);
     Scored one "E" one "F" (PInt 7)]
  /\ sort_files (sort_files [Scored one "C" 0 "D" (PInt 5);
                             Scored 0 "A" one "B" (PInt 0);
                             Scored one "E" one "F" (PInt 7)])
     = [Scored 0 "A" one "B" (PInt 0); Scored one "C" 0 "D" (PInt 5);
        Scored one "E" one "F" (PInt 7)].
Proof. by vm_compute. Qed.

End SortDupMore.

(* ================================================================== *)
(** * More on csv2wiki.py *)
(* ================================================================== *)

Module Csv2WikiMore.
Import Py Py.Notations Csv2Wiki Spec Further PyFacts SortDupFacts Csv2WikiFacts.

Section AnySite.
Variable site : list event -> save_call -> bool.
Variables (header : list string) (row_num len_row : nat) (t : string).

(** One cell, whatever the site answers: the title and the contents
    text stay, at most the cell is added to the categories, and the
    step ends normally or with one of two exceptions. *)
Lemma cell_step_any k cell st :
  let st1 := if bool_decide (k = 0%nat) then new_page row_num cell st else st in
  title st1 = Some t ->
  exists st' r,
    cell_step site header row_num len_row k cell st = (st', r)
    /\ title st' = Some t
    /\ toc_text st' = toc_text st1
    /\ (categories st' = categories st1
        \/ (cell <> "" /\ Z.of_nat k = Z.of_nat len_row - 1
            /\ (cell ∉ categories st1)
            /\ categories st' = categories st1 ++ [cell]))
    /\ (r = Ok tt
        \/ (r = Raise IndexError /\ cell <> "" /\ (length header <= k)%nat)
        \/ (r = Raise APIError
            /\ exists h c, section c = Some New /\ site h c = false))
    /\ (r = Ok tt -> cell = "" \/ (k < length header)%nat).
Proof.
  intros st1 Ht. unfold cell_step. fold st1.
  destruct (decide (cell = "")) as [->|Hcell].
  - rewrite bool_decide_eq_true_2 by done. exists st1, (Ok tt). auto 10.
  - rewrite bool_decide_eq_false_2 by done.
    set (last := bool_decide (Z.of_nat k = Z.of_nat len_row - 1)).
    set (cell_text := if last then _ else cell).
    set (st2 := if last then add_category cell st1 else st1).
    assert (title st2 = Some t /\ toc_text st2 = toc_text st1
            /\ (categories st2 = categories st1
                \/ (cell <> "" /\ Z.of_nat k = Z.of_nat len_row - 1
                    /\ (cell ∉ categories st1)
                    /\ categories st2 = categories st1 ++ [cell])))
      as (Ht2 & Htoc & Hcat).
    { subst st2 last. case_bool_decide as Hlast; [| auto].
      unfold add_category. case_bool_decide as Hin; [auto |].
      cbn. split_and!; [done | done |]. right. auto. }
    rewrite Ht2. unfold index.
    destruct (header !! k) as [h|] eqn:Hh; cbn [of_option].
    + apply lookup_lt_Some in Hh as Hlt. unfold save.
      set (c := SaveCall t cell_text (Some (Numbered k)) (Some h)).
      set (c' := SaveCall t cell_text (Some New) (Some h)).
      destruct (site (log st2) c).
      * eexists _, _. split; [done |]. cbn. auto 10.
      * destruct (site _ c') eqn:Hnew; eexists _, _; (split; [done |]); cbn.
        -- auto 10.
        -- split_and!; try done. right. right. split; [done |].
           by eexists _, c'.
    + apply lookup_ge_None in Hh.
      exists st2, (Raise IndexError). split_and!; try done. auto.
Qed.

Lemma category_step_refl o cats : category_step o cats cats.
Proof. by left. Qed.

(** The cells behind the first one, whatever the site answers. *)
Lemma cells_loop_any cells : forall k st,
  k <> 0%nat ->
  title st = Some t ->
  (k + length cells = len_row)%nat ->
  exists st' r,
    cells_loop site header row_num len_row k cells st = (st', r)
    /\ title st' = Some t
    /\ toc_text st' = toc_text st
    /\ category_step (last cells) (categories st) (categories st')
    /\ (r = Ok tt \/ r = Raise IndexError \/ r = Raise APIError).
Proof.
  induction cells as [|cell rest IH]; intros k st Hk Ht Hlen.
  - exists st, (Ok tt). split_and!; try done; [by left | auto].
  - cbn [length] in Hlen. cbn [cells_loop].
    destruct (cell_step_any k cell st)
      as (st1 & r1 & -> & Ht1 & Htoc1 & Hcat1 & Hr1 & _);
      rewrite ?bool_decide_eq_false_2 by done; [done |].
    rewrite bool_decide_eq_false_2 in Htoc1, Hcat1 by done.
    assert (category_step (last (cell :: rest)) (categories st) (categories st1)
            /\ (rest <> [] -> categories st1 = categories st)) as [Hstep Hsame].
    { destruct Hcat1 as [->|(Hne & Hlast & Hnin & ->)].
      - split; [by left | done].
      - destruct rest as [|cell' rest]; [| cbn [length] in Hlen; lia].
        split; [| done]. right. by exists cell. }
    destruct r1 as [u|e].
    + destruct u. destruct (IH (S k) st1) as (st2 & r2 & -> & Ht2 & Htoc2 & Hcat2 & Hr2);
        [done | done | lia |].
      exists st2, r2. split_and!; try done; [congruence |].
      destruct rest as [|cell' rest].
      * cbn [last] in Hcat2. by destruct Hcat2 as [->|(? & ? & _)].
      * rewrite Hsame in Hcat2 by done. exact Hcat2.
    + exists st1, (Raise e). split_and!; try done.
      destruct Hr1 as [Hr|[[Hr _]|[Hr _]]]; simplify_eq; auto.
Qed.

End AnySite.

(** One data row, whatever the site answers. *)
Lemma data_row_any site header row_num row st :
  exists st' r,
    data_row site header row_num row st = (st', r)
    /\ toc_text st' = toc_text st +:+ toc_line row_num row
    /\ category_step (last row) (categories st) (categories st')
    /\ (r = Ok tt \/ r = Raise IndexError \/ r = Raise APIError).
Proof.
  destruct row as [|cell rest].
  - exists st, (Ok tt). cbn [toc_line]. rewrite append_nil_r.
    split_and!; try done; [by left | auto].
  - unfold data_row. cbn [cells_loop toc_line].
    set (len := length (cell :: rest)).
    set (t := proposal_title row_num cell).
    destruct (cell_step_any site header row_num len t 0 cell st)
      as (st1 & r1 & -> & Ht1 & Htoc1 & Hcat1 & Hr1 & _); [done |].
    rewrite bool_decide_eq_true_2 in Htoc1, Hcat1 by done.
    cbn [new_page emit toc_text categories] in Htoc1, Hcat1.
    destruct r1 as [u|e].
    + destruct u.
      destruct (cells_loop_any site header row_num len t rest 1%nat st1)
        as (st2 & r2 & -> & Ht2 & Htoc2 & Hcat2 & Hr2); [done | done | done |].
      exists st2, r2. split_and!; try done; [by rewrite Htoc2, Htoc1 |].
      destruct Hcat1 as [Hsame|(Hne & Hlast & Hnin & Hadd)].
      * rewrite Hsame in Hcat2. destruct rest as [|c' rest]; [| exact Hcat2].
        destruct Hcat2 as [->|(? & ? & _)]; [by left | done].
      * destruct rest as [|c' rest]; [| subst len; cbn in Hlast; lia].
        destruct Hcat2 as [->|(? & ? & _)]; [| done].
        right. exists cell. by rewrite Hadd.
    + exists st1, (Raise e). split_and!; try done.
      * destruct Hcat1 as [->|(Hne & Hlast & Hnin & ->)]; [by left |].
        destruct rest as [|c' rest]; [| subst len; cbn in Hlast; lia].
        right. by exists cell.
      * destruct Hr1 as [Hr|[[Hr _]|[Hr _]]]; simplify_eq; auto.
Qed.

(** X13.  Whatever the site answers, a data row with cells adds its one
    line to the contents text, adds at most its last cell to the
    Category Set (never an empty one, never one already there), and ends
    normally, with IndexError or with APIError, never with the page
    title unbound. *)
Theorem data_row_outcome site header row_num row st :
  exists st' r,
    data_row site header row_num row st = (st', r)
    /\ toc_text st' = toc_text st +:+ toc_line row_num row
    /\ category_step (last row) (categories st) (categories st')
    /\ (r = Ok tt \/ r = Raise IndexError \/ r = Raise APIError).
Proof. apply data_row_any. Qed.

Section Headed.
Variable site : list event -> save_call -> bool.
Hypothesis new_accepted : forall h c, section c = Some New -> site h c = true.
Variables (header : list string) (row_num len_row : nat) (t : string).

Lemma cell_step_headed k cell st :
  let st1 := if bool_decide (k = 0%nat) then new_page row_num cell st else st in
  title st1 = Some t ->
  exists st',
    cell_step site header row_num len_row k cell st
    = (st', if decide (cell = "" \/ (k < length header)%nat)
            then Ok tt else Raise IndexError)
    /\ title st' = Some t.
Proof.
  intros st1 Ht.
  destruct (cell_step_any site header row_num len_row t k cell st Ht)
    as (st' & r & Hrun & Ht' & _ & _ & Hr & Hok).
  exists st'. split; [| done]. rewrite Hrun. f_equal.
  destruct Hr as [->|[(-> & Hcell & Hk)|(-> & h & c & Hc & Hsite)]].
  - by rewrite decide_True by (by apply Hok).
  - rewrite decide_False; [done |]. intros [?|?]; [done | lia].
  - by rewrite new_accepted in Hsite.
Qed.

Lemma headed_cons k cell rest :
  headed header k (cell :: rest)
  <-> (cell = "" \/ (k < length header)%nat) /\ headed header (S k) rest.
Proof.
  unfold headed. split.
  - intros H. split.
    + destruct (decide (cell = "")) as [|Hne]; [by left | right].
      specialize (H 0%nat cell eq_refl Hne). lia.
    + intros j c Hj Hc. specialize (H (S j) c Hj Hc). lia.
  - intros [Hcell Hrest] [|j] c Hj Hc.
    + injection Hj as ->. destruct Hcell; [done | lia].
    + specialize (Hrest j c Hj Hc). lia.
Qed.

Lemma cells_loop_headed cells : forall k st,
  k <> 0%nat ->
  title st = Some t ->
  (headed header k cells
   /\ exists st', cells_loop site header row_num len_row k cells st = (st', Ok tt))
  \/ (~ headed header k cells
      /\ exists st', cells_loop site header row_num len_row k cells st
                     = (st', Raise IndexError)).
Proof.
  induction cells as [|cell rest IH]; intros k st Hk Ht.
  - left. split; [by intros j c Hj | by exists st].
  - cbn [cells_loop].
    destruct (cell_step_headed k cell st) as (st1 & -> & Ht1);
      [by rewrite bool_decide_eq_false_2 |].
    rewrite headed_cons.
    destruct (decide (cell = "" \/ (k < length header)%nat)) as [Hc|Hc].
    + destruct (IH (S k) st1 ltac:(done) Ht1) as [[Hh Hrun]|[Hh Hrun]];
        [left | right]; (split; [tauto | done]).
    + right. split; [tauto | by exists st1].
Qed.
End Headed.

(** X14.  When the site accepts every text as a new section, a data
    row is processed to its end exactly when each of its non-empty
    cells has a heading; otherwise the first non-empty cell without a
    heading ends the run with IndexError.  Empty cells beyond the
    header do no harm. *)
Theorem data_row_headings site header row_num row st :
  (forall h c, section c = Some New -> site h c = true) ->
  (headed header 0 row /\ snd (data_row site header row_num row st) = Ok tt)
  \/ (~ headed header 0 row
      /\ snd (data_row site header row_num row st) = Raise IndexError).
Proof.
  intros Hsite. destruct row as [|cell rest].
  - left. split; [by intros j c Hj | done].
  - unfold data_row. cbn [cells_loop].
    destruct (cell_step_headed site Hsite header row_num (length (cell :: rest))
                (proposal_title row_num cell) 0 cell st) as (st1 & -> & Ht1);
      [done |].
    rewrite headed_cons.
    destruct (decide (cell = "" \/ (0 < length header)%nat)) as [Hc|Hc].
    + destruct (cells_loop_headed site Hsite header row_num
                  (length (cell :: rest)) (proposal_title row_num cell)
                  rest 1 st1 ltac:(done) Ht1) as [[Hh [st2 ->]]|[Hh [st2 ->]]];
        [left | right]; (split; [tauto | done]).
    + right. split; [tauto | done].
Qed.

Lemma data_row_headings_witness :
  (forall (h : list event) (c : save_call),
     section c = Some New -> (fun _ _ => true) h c = true)
  /\ snd (data_row (fun _ _ => true) ["Name"; "Tag"] 1
                   ["Widget"; "cat1"; ""; ""] (State "" [] None [])) = Ok tt
  /\ snd (data_row (fun _ _ => true) ["Name"; "Tag"] 1
                   ["Widget"; "cat1"; ""; "x"] (State "" [] None []))
     = Raise IndexError.
Proof.
  split; [done |]. split.
  - destruct (data_row_headings (fun _ _ => true) ["Name"; "Tag"] 1
                ["Widget"; "cat1"; ""; ""] (State "" [] None [])
                (fun _ _ _ => eq_refl)) as [[_ H]|[_ H]];
      [exact H | by vm_compute in H].
  - destruct (data_row_headings (fun _ _ => true) ["Name"; "Tag"] 1
                ["Widget"; "cat1"; ""; "x"] (State "" [] None [])
                (fun _ _ _ => eq_refl)) as [[_ H]|[_ H]];
      [by vm_compute in H | exact H].
Defined.

(** ** The whole script *)

Lemma with_category_single cats cell :
  with_category cats [cell]
  = if decide (cell = "" \/ cell ∈ cats) then cats else cats ++ [cell].
Proof. done. Qed.

(** The categories after one cell, whatever the outcome. *)
Lemma cell_step_categories site header row_num len_row k cell st :
  categories (fst (cell_step site header row_num len_row k cell st))
  = if decide (S k = len_row) then with_category (categories st) [cell]
    else categories st.
Proof.
  unfold cell_step.
  set (st1 := if bool_decide (k = 0%nat) then new_page row_num cell st else st).
  assert (categories st1 = categories st) as Hst1
    by (subst st1; by case_bool_decide).
  rewrite with_category_single.
  case_bool_decide as Hcell.
  - subst cell. cbn [fst]. rewrite Hst1.
    rewrite (decide_True (P := "" = "" \/ _)) by (by left). by case_decide.
  - set (last := bool_decide (Z.of_nat k = Z.of_nat len_row - 1)).
    set (st2 := if last then add_category cell st1 else st1).
    assert (categories st2
            = if decide (S k = len_row)
              then (if decide (cell = "" \/ cell ∈ categories st)
                    then categories st else categories st ++ [cell])
              else categories st) as Hcat.
    { subst st2 last. case_bool_decide as Hlast.
      - rewrite decide_True by lia. unfold add_category.
        case_bool_decide as Hin; cbn [categories]; rewrite Hst1 in Hin |- *.
        + by rewrite decide_True by (by right).
        + rewrite decide_False; [done |]. by intros [?|?].
      - by rewrite decide_False by lia. }
    assert (title st2 = title st1) as Ht
      by (subst st2; destruct last; [unfold add_category; case_bool_decide |]; done).
    rewrite Ht. destruct (title st1) as [t|]; [| done].
    destruct (index header k) as [h|e]; [| done].
    unfold save. destruct (site (log st2) _); [done |].
    by destruct (site _ _).
Qed.

Lemma cells_loop_categories site header row_num len_row cells : forall k st,
  (k + length cells = len_row)%nat ->
  snd (cells_loop site header row_num len_row k cells st) = Ok tt ->
  categories (fst (cells_loop site header row_num len_row k cells st))
  = with_category (categories st) cells.
Proof.
  induction cells as [|cell rest IH]; intros k st Hlen; [done |].
  cbn [length] in Hlen. cbn [cells_loop].
  pose proof (cell_step_categories site header row_num len_row k cell st) as Hc.
  destruct (cell_step site header row_num len_row k cell st) as [st1 [u|e]];
    [| done].
  cbn [fst] in Hc. intros Hok. rewrite IH by (done || lia). rewrite Hc.
  destruct rest as [|cell' rest]; cbn [length] in Hlen.
  - by rewrite decide_True by lia.
  - rewrite decide_False by lia.
    by rewrite (with_category_cons _ cell (cell' :: rest)).
Qed.

(** After the rows: the contents text and the categories. *)
Lemma rows_loop_ok site h rows : forall n st st',
  rows_loop site (Some h) n rows st = (st', Ok tt) ->
  toc_text st' = toc_text st +:+ toc_of n rows
  /\ categories st' = foldl with_category (categories st) rows.
Proof.
  induction rows as [|row rows IH]; intros n st st' Hrun.
  - cbn in Hrun. injection Hrun as <-. by rewrite append_nil_r.
  - cbn [rows_loop] in Hrun. cbn [toc_of foldl].
    destruct (data_row_any site h n row st) as (st1 & r1 & Hrow & Htoc & _).
    pose proof (cells_loop_categories site h n (length row) row 0 st eq_refl)
      as Hcat.
    fold (data_row site h n row st) in Hcat. rewrite Hrow in Hrun, Hcat.
    destruct r1 as [u|e]; [| by injection Hrun]. cbn [fst snd] in Hcat.
    destruct u. destruct (IH _ _ _ Hrun) as [-> ->].
    by rewrite Htoc, Hcat, append_assoc.
Qed.

Lemma with_category_row cats row :
  with_category cats row
  = match row_category row with
    | Some c => if decide (c ∈ cats) then cats else cats ++ [c]
    | None => cats
    end.
Proof.
  unfold with_category, row_category. destruct (last row) as [cell|]; [| done].
  destruct (decide (cell = "")) as [->|Hne].
  - by rewrite decide_True by (by left).
  - destruct (decide (cell ∈ cats)) as [Hin|Hnin].
    + by rewrite decide_True by (by right).
    + rewrite decide_False; [done |]. by intros [?|?].
Qed.

Lemma foldl_with_category rows : forall L : list string,
  foldl with_category (first_seen L) rows
  = first_seen (L ++ omap row_category rows).
Proof.
  induction rows as [|row rows IH]; intros L; [by rewrite app_nil_r |].
  cbn [foldl].
  change (omap row_category (row :: rows))
    with (match row_category row with
          | Some c => c :: omap row_category rows
          | None => omap row_category rows
          end).
  rewrite (with_category_row (first_seen L) row).
  destruct (row_category row) as [c|]; [| apply IH].
  assert ((if decide (c ∈ first_seen L) then first_seen L else first_seen L ++ [c])
          = first_seen (L ++ [c])) as ->.
  { rewrite first_seen_snoc. destruct (decide (c ∈ L)) as [Hin|Hnin].
    - by rewrite decide_True by (by apply first_seen_elem).
    - rewrite decide_False; [done |]. by rewrite first_seen_elem. }
  rewrite IH. by rewrite <- app_assoc.
Qed.

Lemma category_pages_ok site cats : forall st st',
  category_pages site cats st = (st', Ok tt) ->
  log st' = log st ++ flat_map category_events cats
  /\ categories st' = categories st /\ toc_text st' = toc_text st.
Proof.
  induction cats as [|c cats IH]; intros st st' Hrun.
  - cbn in Hrun. injection Hrun as <-. by rewrite app_nil_r.
  - cbn [category_pages] in Hrun. unfold save in Hrun.
    destruct (site _ _) eqn:Hsite; [| by injection Hrun].
    destruct (IH _ _ Hrun) as (-> & -> & ->).
    cbn [emit log categories toc_text flat_map category_events].
    by rewrite <- !app_assoc.
Qed.

(** X15.  When the script runs to its end, the contents page it saves
    lists the data rows that have cells, in order, under the row number
    each has in the file (the header being row 0, rows without cells
    counting too); the categories are the non-empty last cells of the
    data rows, each once, in the order of their first row; and the run
    ends by saving the contents page and then, for each category in
    that order, printing it and saving its empty page. *)
Theorem script_ends_with_contents_and_categories site rows st :
  script site rows = (st, Ok tt) ->
  toc_text st = toc_of 1 (tail rows)
  /\ categories st = categories_of (tail rows)
  /\ exists evs,
       log st
       = evs
         ++ Save (SaveCall "List of Proposals" (toc_of 1 (tail rows)) None None) true
         :: flat_map category_events (categories_of (tail rows)).
Proof.
  unfold script. intros Hrun.
  assert (exists st1, rows_loop site None 0 rows (State "" [] None []) = (st1, Ok tt)
                      /\ toc_text st1 = toc_of 1 (tail rows)
                      /\ categories st1 = categories_of (tail rows))
    as (st1 & Hrows & Htoc & Hcat).
  { destruct rows as [|h data].
    - by eexists.
    - cbn [rows_loop tail] in *.
      destruct (rows_loop site (Some h) 1 data _) as [st1 [u|e]] eqn:Hloop;
        [| by injection Hrun].
      destruct u. exists st1. split; [done |].
      destruct (rows_loop_ok _ _ _ _ _ _ Hloop) as [-> ->].
      split; [done |]. apply (foldl_with_category data []). }
  rewrite Hrows in Hrun. unfold save in Hrun.
  destruct (site _ _) eqn:Hsite; [| by injection Hrun].
  apply category_pages_ok in Hrun as (Hlog & Hcats & Htoc').
  cbn [emit log categories toc_text] in *.
  rewrite Htoc', Hcats, Htoc, Hcat. split; [done |]. split; [done |].
  exists (log st1). by rewrite Hlog, Htoc, Hcat, <- app_assoc.
Qed.

Lemma script_ends_with_contents_and_categories_witness :
  exists st,
    script (fun _ _ => true)
           [["Name"; "Tag"]; ["Widget"; "cat1"]; []; ["Gadget"; "cat1"]]
    = (st, Ok tt)
    /\ toc_text st
       = toc_of 1 [["Widget"; "cat1"]; []; ["Gadget"; "cat1"]]
    /\ categories st = ["cat1"]
    /\ exists evs,
         log st
         = evs
           ++ Save (SaveCall "List of Proposals"
                      (toc_of 1 [["Widget"; "cat1"]; []; ["Gadget"; "cat1"]])
                      None None) true
           :: flat_map category_events ["cat1"].
Proof.
  eexists. split; [reflexivity |].
  exact (script_ends_with_contents_and_categories (fun _ _ => true)
           [["Name"; "Tag"]; ["Widget"; "cat1"]; []; ["Gadget"; "cat1"]]
           _ eq_refl).
Defined.

(** ** Page titles *)

Lemma pretty_N_char_digit x : is_Some (digit (pretty_N_char x)).
Proof.
  unfold pretty_N_char. repeat case_match; by eexists.
Qed.

Lemma pretty_N_go_digits x : forall s,
  all_digits s = true -> all_digits (pretty_N_go x s) = true.
Proof.
  induction (N.lt_wf_0 x) as [x _ IH]; intros s Hs.
  destruct (decide (x = 0)%N) as [->|Hx]; [by rewrite pretty_N_go_0 |].
  rewrite pretty_N_go_step by lia. apply IH.
  - apply N.div_lt; lia.
  - cbn [all_digits]. rewrite Hs.
    by rewrite bool_decide_eq_true_2 by apply pretty_N_char_digit.
Qed.

Lemma pretty_nat_digits (n : nat) : all_digits (pretty n) = true.
Proof.
  unfold pretty, pretty_nat, pretty, pretty_N.
  case_decide; [done | by apply pretty_N_go_digits].
Qed.

(** Two digit strings, each followed by a colon, that open the same
    text are the same. *)
Lemma digits_colon_inj (d d' x y : string) :
  all_digits d = true -> all_digits d' = true ->
  d +:+ String ":" x = d' +:+ String ":" y -> d = d' /\ x = y.
Proof.
  revert d'. induction d as [|c d IH]; intros [|c' d'] Hd Hd' Heq.
  - by injection Heq.
  - rewrite append_cons in Heq. injection Heq as <- _.
    cbn in Hd'. by apply andb_true_iff in Hd' as [[]%bool_decide_eq_true _].
  - rewrite append_cons in Heq. injection Heq as -> _.
    cbn in Hd. by apply andb_true_iff in Hd as [[]%bool_decide_eq_true _].
  - rewrite !append_cons in Heq. injection Heq as -> Heq.
    cbn in Hd, Hd'. apply andb_true_iff in Hd as [_ Hd].
    apply andb_true_iff in Hd' as [_ Hd'].
    by destruct (IH d' Hd Hd' Heq) as [-> ->].
Qed.

(** X16.  The title of a page determines the row number and the first
    cell it was made from: two data rows of one file never share a
    page. *)
Theorem proposal_title_inj row_num row_num' cell cell' :
  proposal_title row_num cell = proposal_title row_num' cell' ->
  row_num = row_num' /\ cell = cell'.
Proof.
  unfold proposal_title. intros Heq.
  apply String.app_inj in Heq.
  change (": " +:+ cell) with (String ":" (" " +:+ cell)) in Heq.
  change (": " +:+ cell') with (String ":" (" " +:+ cell')) in Heq.
  apply digits_colon_inj in Heq as [Hn Hc]; [| apply pretty_nat_digits..].
  apply (inj pretty) in Hn. apply String.app_inj in Hc. done.
Qed.

Lemma proposal_title_inj_witness :
  proposal_title 3 "Widget" = proposal_title 3 "Widget"
  /\ 3%nat = 3%nat /\ "Widget" = "Widget".
Proof.
  split; [reflexivity |].
  exact (proposal_title_inj 3 3 "Widget" "Widget" eq_refl).
Defined.

End Csv2WikiMore.
